(** * LiveCodeEditor: preview, export, persistence and status pipeline

    A shallow embedding of [src/components/LiveCodeEditor.jsx].  The React
    component is modelled by explicit state passing: the values held by
    [useState] are the fields of a record, [localStorage] is a finite map
    from keys to strings, and the browser's timer queue is a list of
    pending timers in creation order.  lodash's [debounce] is used with its
    default options (trailing edge only): a call arms a timer that runs the
    callback after the wait, and [flush] runs the callback at once if and
    only if that timer is armed.  Every debounced function the component
    creates is called exactly once, by the auto-save effect of the render
    that created it, so a debounced function is represented by its timer. *)

From Stdlib Require Import Ascii String.
From stdpp Require Import gmap strings list fin_maps sorting.

Local Open Scope string_scope.

(** ** Strings as the JavaScript code uses them *)

(** The double-quote character, for the attribute values of the export
    template. *)
Definition dq : string := String (ascii_of_nat 34) EmptyString.

(** [String.prototype.startsWith]. *)
Fixpoint startsWith (s p : string) {struct p} : bool :=
  match p with
  | EmptyString => true
  | String c p' =>
      match s with
      | EmptyString => false
      | String d s' => if Ascii.eqb c d then startsWith s' p' else false
      end
  end.

(** [String.prototype.includes]: some suffix of [s] starts with [sub]. *)
Fixpoint includes (s sub : string) : bool :=
  startsWith s sub ||
  match s with
  | EmptyString => false
  | String _ s' => includes s' sub
  end.

(** [Boolean.prototype.toString]. *)
Definition bool_toString (b : bool) : string :=
  if b then "true" else "false".

(** ** Preview compositor

    The body of the [useMemo] that computes [srcDoc].  Its [try] block only
    interpolates three strings into a template literal, which cannot raise,
    so the [catch] arm (which would report [Error generating preview] and
    return [previewFallback]) is never entered and the function is total. *)
Definition srcDoc (htmlCode cssCode jsCode : string) : string :=
  "
        <!DOCTYPE html>
        <html>
          <head>
            <style>"
  +:+ cssCode
  +:+ "</style>
          </head>
          <body>
            "
  +:+ htmlCode
  +:+ "
            <script>
              // Error handling wrapper
              window.onerror = function(message, source, lineno, colno, error) {
                const errorElement = document.createElement('div');
                errorElement.style.position = 'fixed';
                errorElement.style.bottom = '0';
                errorElement.style.left = '0';
                errorElement.style.right = '0';
                errorElement.style.backgroundColor = 'rgba(255, 0, 0, 0.7)';
                errorElement.style.color = 'white';
                errorElement.style.padding = '8px';
                errorElement.style.fontSize = '14px';
                errorElement.textContent = 'JavaScript Error: ' + message;
                document.body.appendChild(errorElement);
                return true; // Prevents the default error handling
              };
              // User JS code
              try {
                "
  +:+ jsCode
  +:+ "
              } catch(e) {
                console.error('Error in user JavaScript:', e);
              }
            </script>
          </body>
        </html>
      ".

Definition previewFallback : string :=
  "<html><body><p>Preview error. Check your code.</p></body></html>".

(** ** Export serializer

    The template literal bound to [fullHtml] in [handleDownload]. *)
Definition fullHtml (htmlCode cssCode jsCode : string) : string :=
  "
<!DOCTYPE html>
<html>
<head>
  <meta charset=" +:+ dq +:+ "UTF-8" +:+ dq +:+ ">
  <meta name=" +:+ dq +:+ "viewport" +:+ dq +:+ " content=" +:+ dq +:+ "width=device-width, initial-scale=1.0" +:+ dq +:+ ">
  <title>Live Code Editor Export</title>
  <style>
"
  +:+ cssCode
  +:+ "
  </style>
</head>
<body>
"
  +:+ htmlCode
  +:+ "
  <script>
"
  +:+ jsCode
  +:+ "
  </script>
</body>
</html>
".

(** ** Document state

    The four values kept by [useState] that are persisted: the three
    buffers and the dark-mode flag. *)
Record Doc := mkDoc {
  htmlCode : string;
  cssCode : string;
  jsCode : string;
  darkMode : bool
}.

#[global] Instance Doc_eq_dec : EqDecision Doc.
Proof. solve_decision. Defined.

(** The initial values passed to [useState]. *)
Definition defaultDoc : Doc :=
  {| htmlCode := "<h1>Hello, World!</h1>";
     cssCode := "h1 { color: red; }";
     jsCode := "function func() { 
   alert('Hello');
}";
     darkMode := true |}.

Definition setHtmlCode (v : string) (d : Doc) : Doc :=
  {| htmlCode := v; cssCode := cssCode d; jsCode := jsCode d; darkMode := darkMode d |}.
Definition setCssCode (v : string) (d : Doc) : Doc :=
  {| htmlCode := htmlCode d; cssCode := v; jsCode := jsCode d; darkMode := darkMode d |}.
Definition setJsCode (v : string) (d : Doc) : Doc :=
  {| htmlCode := htmlCode d; cssCode := cssCode d; jsCode := v; darkMode := darkMode d |}.
Definition setDarkMode (b : bool) (d : Doc) : Doc :=
  {| htmlCode := htmlCode d; cssCode := cssCode d; jsCode := jsCode d; darkMode := b |}.

(** ** Persistence: [localStorage] as a finite map *)

Definition KEY_HTML : string := "live-editor-html".
Definition KEY_CSS : string := "live-editor-css".
Definition KEY_JS : string := "live-editor-js".
Definition KEY_DARK : string := "live-editor-dark-mode".

(** [if (saved) set(saved)]: [getItem] yields [null] for a missing key, and
    both [null] and the empty string are falsy. *)
Definition ifTruthy (saved : option string) (current : string) : string :=
  match saved with
  | Some (String c s) => String c s
  | Some EmptyString => current
  | None => current
  end.

(** [if (savedDarkMode !== null) setDarkMode(savedDarkMode === 'true')]. *)
Definition ifNotNull (saved : option string) (current : bool) : bool :=
  match saved with
  | Some v => bool_decide (v = "true")
  | None => current
  end.

(** The load effect run on mount, applied to the state [d] of the first
    render. *)
Definition loadSaved (ls : gmap string string) (d : Doc) : Doc :=
  let savedHtml := ls !! KEY_HTML in
  let savedCss := ls !! KEY_CSS in
  let savedJs := ls !! KEY_JS in
  let savedDarkMode := ls !! KEY_DARK in
  {| htmlCode := ifTruthy savedHtml (htmlCode d);
     cssCode := ifTruthy savedCss (cssCode d);
     jsCode := ifTruthy savedJs (jsCode d);
     darkMode := ifNotNull savedDarkMode (darkMode d) |}.

(** The four [setItem] calls of the save callback, in program order. *)
Definition entries (d : Doc) : list (string * string) :=
  [ (KEY_HTML, htmlCode d);
    (KEY_CSS, cssCode d);
    (KEY_JS, jsCode d);
    (KEY_DARK, bool_toString (darkMode d)) ].

(** ** Timers

    A pending timer of the browser.  [InvokeSave id d] is the timer armed by
    calling the debounced function number [id], whose callback closed over
    the document [d]; [ClearStatus] is [setTimeout(() => setErrorMsg(""),
    2000)]. *)
Inductive TimerAction :=
  | InvokeSave (id : nat) (closure : Doc)
  | ClearStatus.

Record Timer := mkTimer { due : nat; action : TimerAction }.

(** The debounce wait passed to lodash and the delay of the status timer,
    in milliseconds. *)
Definition DEBOUNCE_WAIT : nat := 1000.
Definition STATUS_DELAY : nat := 2000.

(** The next timer to fire: the one with the least deadline, the earliest
    created among equals; returned with the remaining queue. *)
Fixpoint pick (q : list Timer) : option (Timer * list Timer) :=
  match q with
  | [] => None
  | x :: q' =>
      match pick q' with
      | None => Some (x, [])
      | Some (y, r) =>
          if (due x <=? due y)%nat then Some (x, q') else Some (y, x :: r)
      end
  end.

(** The pending timer of debounced function [id], if it is armed. *)
Fixpoint pendingSave (id : nat) (q : list Timer) : option Doc :=
  match q with
  | [] => None
  | x :: q' =>
      match action x with
      | InvokeSave i d => if decide (i = id) then Some d else pendingSave id q'
      | ClearStatus => pendingSave id q'
      end
  end.

Fixpoint disarm (id : nat) (q : list Timer) : list Timer :=
  match q with
  | [] => []
  | x :: q' =>
      match action x with
      | InvokeSave i _ => if decide (i = id) then disarm id q' else x :: disarm id q'
      | ClearStatus => x :: disarm id q'
      end
  end.

(** ** The component

    [currentId] names the debounced function currently memoised by
    [useCallback]; [writeLog] and [downloads] are ghost histories: every run
    of the save callback (time and closed-over document) and every file
    handed to the browser (name and content). *)
Record World := mkWorld {
  doc : Doc;
  errorMsg : string;
  codeChanged : bool;
  storage : gmap string string;
  now : nat;
  timers : list Timer;
  currentId : nat;
  writeLog : list (nat * Doc);
  downloads : list (string * string)
}.

Definition withStatus (m : string) (w : World) : World :=
  mkWorld (doc w) m (codeChanged w) (storage w) (now w) (timers w)
          (currentId w) (writeLog w) (downloads w).

Definition withTimers (q : list Timer) (w : World) : World :=
  mkWorld (doc w) (errorMsg w) (codeChanged w) (storage w) (now w) q
          (currentId w) (writeLog w) (downloads w).

Definition withNow (t : nat) (w : World) : World :=
  mkWorld (doc w) (errorMsg w) (codeChanged w) (storage w) t (timers w)
          (currentId w) (writeLog w) (downloads w).


(** A state setter followed by the re-render it causes.  When the new
    values equal the old ones nothing changes.  Otherwise the dependency
    list of [useCallback] differs, so a fresh debounced function closed
    over [d] replaces the memoised one (the old one and its timer are left
    alone), and the auto-save effect runs: [setCodeChanged(true)] and a
    call of the fresh function, which arms its timer. *)
Definition render (d : Doc) (w : World) : World :=
  if decide (d = doc w) then w
  else
    let id := S (currentId w) in
    mkWorld d (errorMsg w) true (storage w) (now w)
            (timers w ++ [mkTimer (now w + DEBOUNCE_WAIT) (InvokeSave id d)])
            id (writeLog w) (downloads w).

(** [handleDownload].  [thrown] is the exception, if any, raised by the
    Blob, object-URL or DOM calls that precede [a.click()]. *)
Definition handleDownload (thrown : option string) (w : World) : World :=
  match thrown with
  | None =>
      let fullHtml := fullHtml (htmlCode (doc w)) (cssCode (doc w)) (jsCode (doc w)) in
      mkWorld (doc w) "Downloaded successfully!" (codeChanged w) (storage w) (now w)
              (timers w ++ [mkTimer (now w + STATUS_DELAY) ClearStatus])
              (currentId w) (writeLog w)
              (downloads w ++ [("live-editor-export.html", fullHtml)])
  | Some msg => withStatus ("Download failed: " +:+ msg) w
  end.

(** The first render at time 0 with its effects: the auto-save effect
    calls debounced function 0, closed over the defaults. *)
Definition firstRender (ls : gmap string string) : World :=
  mkWorld defaultDoc "" true ls 0
          [mkTimer DEBOUNCE_WAIT (InvokeSave 0 defaultDoc)] 0 [] [].

(** Mounting: the first render, then the re-render caused by the setters
    of the load effect. *)
Definition mount (ls : gmap string string) : World :=
  render (loadSaved ls defaultDoc) (firstRender ls).

(** User input and the passing of time. *)
Inductive Event :=
  | EditHtml (v : string)
  | EditCss (v : string)
  | EditJs (v : string)
  | ToggleDark
  | ClickSave
  | ClickExport (thrown : option string)
  | Elapse (ms : nat).

Section Component.

(** The browser's answer to [localStorage.setItem(k, v)] on a store [ls]:
    [None] when the entry is stored, [Some msg] when the call throws an
    exception whose [message] is [msg] (quota exceeded, storage
    disabled). *)
Variable setItem_throws : gmap string string -> string -> string -> option string.

(** The [setItem] calls up to the first one that throws. *)
Fixpoint setItems (ls : gmap string string) (kvs : list (string * string))
  : gmap string string * option string :=
  match kvs with
  | [] => (ls, None)
  | (k, v) :: rest =>
      match setItem_throws ls k v with
      | Some msg => (ls, Some msg)
      | None => setItems (<[k:=v]> ls) rest
      end
  end.

(** The callback wrapped by [debounce], closed over the document [d]. *)
Definition saveBody (d : Doc) (w : World) : World :=
  match setItems (storage w) (entries d) with
  | (ls, None) =>
      mkWorld (doc w) "" false ls (now w) (timers w) (currentId w)
              (writeLog w ++ [(now w, d)]) (downloads w)
  | (ls, Some msg) =>
      mkWorld (doc w) ("Failed to save: " +:+ msg) (codeChanged w) ls (now w)
              (timers w) (currentId w) (writeLog w ++ [(now w, d)]) (downloads w)
  end.

(** [saveToLocalStorage.flush()]: lodash invokes the callback at once when
    the function's timer is armed, and does nothing otherwise. *)
Definition flush (w : World) : World :=
  match pendingSave (currentId w) (timers w) with
  | Some d => saveBody d (withTimers (disarm (currentId w) (timers w)) w)
  | None => w
  end.

Definition handleSave (w : World) : World :=
  let w1 := flush w in
  withTimers (timers w1 ++ [mkTimer (now w1 + STATUS_DELAY) ClearStatus])
             (withStatus "Code saved successfully!" w1).

(** A timer fires. *)
Definition fire (t : Timer) (w : World) : World :=
  match action t with
  | InvokeSave _ d => saveBody d w
  | ClearStatus => withStatus "" w
  end.

(** Fire, in order, the timers that are due by time [T]. *)
Fixpoint run_timers (fuel : nat) (T : nat) (w : World) : World :=
  match fuel with
  | 0 => w
  | S fuel' =>
      match pick (timers w) with
      | Some (x, rest) =>
          if (due x <=? T)%nat
          then run_timers fuel' T (fire x (withNow (Nat.max (now w) (due x)) (withTimers rest w)))
          else w
      | None => w
      end
  end.

(** The clock reaches [T] with no user input in between.  No callback
    arms a timer, so the length of the queue is fuel enough. *)
Definition advance (T : nat) (w : World) : World :=
  let w' := run_timers (length (timers w)) T w in
  withNow (Nat.max (now w') T) w'.

(** One event of the component's life. *)
Definition step (w : World) (e : Event) : World :=
  match e with
  | EditHtml v => render (setHtmlCode v (doc w)) w
  | EditCss v => render (setCssCode v (doc w)) w
  | EditJs v => render (setJsCode v (doc w)) w
  | ToggleDark => render (setDarkMode (negb (darkMode (doc w))) (doc w)) w
  | ClickSave => handleSave w
  | ClickExport thrown => handleDownload thrown w
  | Elapse ms => advance (now w + ms) w
  end.

Definition run (es : list Event) (w : World) : World := foldl step w es.

End Component.

(** The status bar paints a message red when this holds and green
    otherwise. *)
Definition isErrorStatus (errorMsg : string) : bool :=
  includes errorMsg "Error" || includes errorMsg "Failed".

(** The document that the persisted entries spell out, when all four are
    present. *)
Definition persisted (ls : gmap string string) (d : Doc) : Prop :=
  ls !! KEY_HTML = Some (htmlCode d) ∧
  ls !! KEY_CSS = Some (cssCode d) ∧
  ls !! KEY_JS = Some (jsCode d) ∧
  ls !! KEY_DARK = Some (bool_toString (darkMode d)).

(** The status text set by the [catch] arm of the preview [useMemo]. *)
Definition previewErrorStatus (msg : string) : string :=
  "Error generating preview: " +:+ msg.

(** ** Browsers and reachable states *)

(** A browser whose storage accepts every entry. *)
Definition storesAll : gmap string string -> string -> string -> option string :=
  fun _ _ _ => None.

(** Characters held by a store, keys and values. *)
Definition storeSize (ls : gmap string string) : nat :=
  map_fold (fun k v acc => String.length k + String.length v + acc) 0 ls.

(** A browser whose storage holds at most [limit] characters and throws
    once a [setItem] would exceed that. *)
Definition quota (limit : nat) : gmap string string -> string -> string -> option string :=
  fun ls k v =>
    if (storeSize (<[k:=v]> ls) <=? limit)%nat then None
    else Some "The quota has been exceeded.".

(** The states the component can be in: mounted on some store, then driven
    by events. *)
Inductive reachable (browser : gmap string string -> string -> string -> option string)
  : World -> Prop :=
  | reachable_mount ls : reachable browser (mount ls)
  | reachable_step w e : reachable browser w -> reachable browser (step browser w e).

(** No pending timer lies further ahead than the longest delay. *)
Definition timers_bounded (w : World) : Prop :=
  Forall (fun t => due t <= now w + STATUS_DELAY) (timers w).

(** Write the entries [kvs] into [ls] unconditionally. *)
Definition putAll (ls : gmap string string) (kvs : list (string * string)) : gmap string string :=
  foldl (fun m kv => <[kv.1 := kv.2]> m) ls kvs.

(** A fresh browser profile, one second after the editor was opened: the
    defaults have been auto-saved and no timer is pending. *)
Definition idle : World := advance storesAll 1000 (mount ∅).

(** Two edits half a second apart, and a tenth of a second more. *)
Definition twoEditsBeforeSave : list Event :=
  [EditHtml "a"; Elapse 500; EditHtml "ab"; Elapse 100].

(** Two edits half a second apart, then a quiet second. *)
Definition twoRapidEdits : list Event :=
  [EditHtml "a"; Elapse 500; EditHtml "ab"; Elapse 1000].

(** A document whose script outgrows what is left of the quota. *)
Definition bigScriptDoc : Doc :=
  {| htmlCode := "x";
     cssCode := "y";
     jsCode := "/* a script long enough to exceed the quota of the store: 0123456789 0123456789 0123456789 0123456789 */";
     darkMode := false |}.

(** An emptied markup buffer. *)
Definition emptiedMarkup : Doc := setHtmlCode "" defaultDoc.

(** The idle editor right after the long script was typed: its write is
    pending. *)
Definition bigScriptTyped : World :=
  render (setJsCode (jsCode bigScriptDoc) (doc idle)) idle.

(** The script of the spec's example, [throw new Error] applied to the
    string x. *)
Definition throwingScript : string :=
  "throw new Error(" +:+ dq +:+ "x" +:+ dq +:+ ")".

(** ** The queue seen from the save callbacks

    The armed debounced functions of a queue, in creation order: deadline,
    number and closed-over document. *)
Fixpoint pendingSaves (q : list Timer) : list (nat * nat * Doc) :=
  match q with
  | [] => []
  | x :: q' =>
      match action x with
      | InvokeSave i d => (due x, i, d) :: pendingSaves q'
      | ClearStatus => pendingSaves q'
      end
  end.

(** An earlier debounced function has the smaller number and is due no
    later. *)
Definition save_before (a b : nat * nat * Doc) : Prop :=
  a.1.1 <= b.1.1 /\ a.1.2 < b.1.2.

(** What every reachable state satisfies: the armed debounced functions are
    in order, none is due later than the debounce wait or numbered above the
    memoised one, the memoised one closed over the current document, and
    every debounced function created so far has either run once or is still
    armed. *)
Definition queue_ok (w : World) : Prop :=
  StronglySorted save_before (pendingSaves (timers w))
  /\ Forall (fun s => s.1.1 <= now w + DEBOUNCE_WAIT /\ s.1.2 <= currentId w)
            (pendingSaves (timers w))
  /\ (forall t d, (t, currentId w, d) ∈ pendingSaves (timers w) -> d = doc w)
  /\ length (writeLog w) + length (pendingSaves (timers w)) = S (currentId w).

(** A key of the component. *)
Definition ownKey (k : string) : Prop :=
  k = KEY_HTML \/ k = KEY_CSS \/ k = KEY_JS \/ k = KEY_DARK.

(** ** Layout

    The values of the [expanded] state besides [null]. *)
Inductive Panel := PHtml | PCss | PJs | PPreview.

#[global] Instance Panel_eq_dec : EqDecision Panel.
Proof. solve_decision. Defined.

(** [toggleExpand]: [setExpanded(expanded === editor ? null : editor)]. *)
Definition toggleExpand (editor : Panel) (expanded : option Panel) : option Panel :=
  if decide (expanded = Some editor) then None else Some editor.

(** The [className] of the editors section. *)
Definition editorsSectionClass (expanded : option Panel) (darkMode : bool) : string :=
  (match expanded with
   | Some p => if decide (p = PPreview) then "hidden" else "w-full"
   | None => "md:w-1/2 w-full"
   end)
  +:+ " flex flex-col p-3 space-y-3 "
  +:+ (if darkMode then "border-r border-gray-700" else "border-r border-gray-300").

(** The [className] and the inline [display] of the HTML editor. *)
Definition htmlPanelClass (expanded : option Panel) (darkMode : bool) : string :=
  (if decide (expanded = Some PHtml) then "flex-1"
   else match expanded with
        | Some _ => "hidden"
        | None => "flex-1"
        end)
  +:+ " overflow-y-auto border "
  +:+ (if darkMode then "border-blue-500" else "border-blue-400")
  +:+ " rounded-lg p-2".

Definition htmlPanelDisplay (expanded : option Panel) : string :=
  if decide (expanded = Some PHtml) then "block"
  else match expanded with
       | None => "block"
       | Some p => if decide (p <> PPreview) then "none" else "block"
       end.

(** The row of the CSS and JavaScript editors: whether it is rendered at
    all, and its [className]. *)
Definition cssJsRowRendered (expanded : option Panel) : bool :=
  bool_decide (expanded = None)
  || bool_decide (expanded = Some PCss)
  || bool_decide (expanded = Some PJs).

Definition cssJsRowClass (expanded : option Panel) : string :=
  (match expanded with Some _ => "flex-1" | None => "h-2/5" end)
  +:+ " flex md:flex-row flex-col space-y-3 md:space-y-0 md:space-x-3".

Definition cssPanelClass (expanded : option Panel) (darkMode : bool) : string :=
  (if decide (expanded = Some PCss) then "w-full"
   else if decide (expanded = Some PJs) then "hidden" else "md:w-1/2 w-full")
  +:+ " overflow-y-auto border "
  +:+ (if darkMode then "border-green-500" else "border-green-400")
  +:+ " rounded-lg p-2".

Definition cssPanelDisplay (expanded : option Panel) : string :=
  if bool_decide (expanded = Some PCss)
     || bool_decide (expanded = None)
     || (bool_decide (expanded <> Some PJs)
         && bool_decide (expanded <> Some PPreview)
         && bool_decide (expanded <> Some PHtml))
  then "block" else "none".

Definition jsPanelClass (expanded : option Panel) (darkMode : bool) : string :=
  (if decide (expanded = Some PJs) then "w-full"
   else if decide (expanded = Some PCss) then "hidden" else "md:w-1/2 w-full")
  +:+ " overflow-y-auto border "
  +:+ (if darkMode then "border-yellow-500" else "border-yellow-400")
  +:+ " rounded-lg p-2".

Definition jsPanelDisplay (expanded : option Panel) : string :=
  if bool_decide (expanded = Some PJs)
     || bool_decide (expanded = None)
     || (bool_decide (expanded <> Some PCss)
         && bool_decide (expanded <> Some PPreview)
         && bool_decide (expanded <> Some PHtml))
  then "block" else "none".

(** The [className] of the preview section. *)
Definition previewSectionClass (expanded : option Panel) : string :=
  (match expanded with
   | Some p => if decide (p = PPreview) then "w-full h-full" else "hidden"
   | None => "md:w-1/2 w-full"
   end)
  +:+ " p-3".

(** The title of a panel's expand button. *)
Definition expandTitle (expanded : option Panel) (p : Panel) : string :=
  if decide (expanded = Some p) then "Minimize" else "Maximize".

(** The class names of a [className], which are separated by spaces. *)
Fixpoint classNamesFrom (cur : string) (s : string) : list string :=
  match s with
  | EmptyString => [cur]
  | String c s' =>
      if Ascii.eqb c " "%char then cur :: classNamesFrom "" s'
      else classNamesFrom (cur +:+ String c "") s'
  end.

Definition hasClass (className cls : string) : bool :=
  bool_decide (cls ∈ classNamesFrom "" className).

(** Whether the browser lays an element out.  Tailwind's [hidden] is
    [display: none], and an inline [display] wins over a class. *)
Definition displayedByClass (className : string) : bool :=
  negb (hasClass className "hidden").

Definition displayedByStyle (display : string) : bool :=
  negb (bool_decide (display = "none")).

(** A panel is on screen when it and the elements around it are rendered
    and laid out. *)
Definition panelVisible (expanded : option Panel) (darkMode : bool) (p : Panel) : bool :=
  match p with
  | PHtml =>
      displayedByClass (editorsSectionClass expanded darkMode)
      && displayedByStyle (htmlPanelDisplay expanded)
  | PCss =>
      displayedByClass (editorsSectionClass expanded darkMode)
      && cssJsRowRendered expanded
      && displayedByClass (cssJsRowClass expanded)
      && displayedByStyle (cssPanelDisplay expanded)
  | PJs =>
      displayedByClass (editorsSectionClass expanded darkMode)
      && cssJsRowRendered expanded
      && displayedByClass (cssJsRowClass expanded)
      && displayedByStyle (jsPanelDisplay expanded)
  | PPreview => displayedByClass (previewSectionClass expanded)
  end.

(** The same, had the panels no inline [display] and only their classes. *)
Definition panelVisibleByClass (expanded : option Panel) (darkMode : bool) (p : Panel) : bool :=
  match p with
  | PHtml =>
      displayedByClass (editorsSectionClass expanded darkMode)
      && displayedByClass (htmlPanelClass expanded darkMode)
  | PCss =>
      displayedByClass (editorsSectionClass expanded darkMode)
      && cssJsRowRendered expanded
      && displayedByClass (cssJsRowClass expanded)
      && displayedByClass (cssPanelClass expanded darkMode)
  | PJs =>
      displayedByClass (editorsSectionClass expanded darkMode)
      && cssJsRowRendered expanded
      && displayedByClass (cssJsRowClass expanded)
      && displayedByClass (jsPanelClass expanded darkMode)
  | PPreview => displayedByClass (previewSectionClass expanded)
  end.

(** The status bar: not rendered for the empty message, red for an error
    and green otherwise. *)
Definition statusBarClass (errorMsg : string) : option string :=
  match errorMsg with
  | EmptyString => None
  | String _ _ =>
      Some ("py-1 px-3 text-sm "
              +:+ (if isErrorStatus errorMsg then "bg-red-600" else "bg-green-600")
              +:+ " text-white")
  end.

(** * Properties *)

(** ** Substrings *)

Lemma append_cons (x : ascii) (a b : string) :
  String x a +:+ b = String x (a +:+ b).
Proof. reflexivity. Qed.

Lemma append_assoc_str (a b c : string) : (a +:+ b) +:+ c = a +:+ (b +:+ c).
Proof.
  induction a as [|x a IH]; [reflexivity |].
  rewrite !append_cons. now rewrite IH.
Qed.

Lemma append_length_str (a b : string) :
  String.length (a +:+ b) = String.length a + String.length b.
Proof.
  induction a as [|x a IH]; [reflexivity |].
  rewrite append_cons. simpl. now rewrite IH.
Qed.

Lemma startsWith_append (p s : string) : startsWith (p +:+ s) p = true.
Proof.
  induction p as [|c p IH]; [reflexivity |].
  rewrite append_cons. simpl. now rewrite Ascii.eqb_refl.
Qed.

Lemma includes_here (s sub : string) : startsWith s sub = true -> includes s sub = true.
Proof. intros H. destruct s; simpl; rewrite H; reflexivity. Qed.

Lemma includes_append_r (a s sub : string) :
  includes s sub = true -> includes (a +:+ s) sub = true.
Proof.
  intros H. induction a as [|c a IH]; [exact H |].
  rewrite append_cons. simpl. rewrite IH. apply orb_true_r.
Qed.

(** A string that is cut as [a], [sub], [b] includes [sub]. *)
Lemma includes_infix (a sub b : string) : includes (a +:+ sub +:+ b) sub = true.
Proof. apply includes_append_r, includes_here, startsWith_append. Qed.

Lemma includes_cut (s a sub b : string) :
  s = a +:+ sub +:+ b -> includes s sub = true.
Proof. intros ->. apply includes_infix. Qed.

(** Re-associate both sides of an equation between concatenations, spell
    the literals out and compare. *)
Ltac same_text :=
  repeat rewrite append_assoc_str; cbv [String.append]; reflexivity.

(** ** Preview compositor *)


(** ** Export serializer *)

(** C4: for all buffers the exported page holds the style buffer alone
    between its style tags and the markup and the script buffers verbatim in
    the body, the script directly between the script tags; it starts with
    the doctype and carries the charset, viewport and title elements; all of
    its text besides the buffers is the fixed boilerplate, which has no
    [window.onerror] and no [try] or [catch].  The page exported for the
    example buffers holds the three fragments and no shim.  An export that
    goes through hands the browser one more file, named
    [live-editor-export.html], whose content is that page for the three
    buffers of the current document. *)
Theorem fullHtml_standalone (h c j : string) :
  (forall w : World,
      downloads (handleDownload None w)
      = (downloads w
           ++ [("live-editor-export.html",
                fullHtml (htmlCode (doc w)) (cssCode (doc w)) (jsCode (doc w)))])%list)
  /\ includes (fullHtml h c j) ("<style>
" +:+ c +:+ "
  </style>") = true
  /\ includes (fullHtml h c j) ("<body>
" +:+ h +:+ "
  <script>
" +:+ j +:+ "
  </script>
</body>") = true
  /\ startsWith (fullHtml h c j) "
<!DOCTYPE html>" = true
  /\ includes (fullHtml h c j) ("<meta charset=" +:+ dq +:+ "UTF-8" +:+ dq +:+ ">") = true
  /\ includes (fullHtml h c j)
       ("<meta name=" +:+ dq +:+ "viewport" +:+ dq +:+ " content=" +:+ dq
          +:+ "width=device-width, initial-scale=1.0" +:+ dq +:+ ">") = true
  /\ includes (fullHtml h c j) "<title>Live Code Editor Export</title>" = true
  /\ String.length (fullHtml h c j) =
       String.length (fullHtml "" "" "")
       + String.length h + String.length c + String.length j
  /\ includes (fullHtml "" "" "") "window.onerror" = false
  /\ includes (fullHtml "" "" "") "try" = false
  /\ includes (fullHtml "" "" "") "catch" = false
  /\ (let page := fullHtml "<h1>A</h1>" "h1{color:red}" "console.log(1)" in
      includes page "<h1>A</h1>" = true
      /\ includes page "h1{color:red}" = true
      /\ includes page "console.log(1)" = true
      /\ includes page "window.onerror" = false
      /\ includes page "try" = false
      /\ includes page "catch" = false).
Proof.
  split; [intros w; reflexivity |].
  unfold fullHtml. split; [|split; [|split; [|split; [|split; [|split; [|split]]]]]].
  - eapply (includes_cut _ ("
<!DOCTYPE html>
<html>
<head>
  <meta charset=" +:+ dq +:+ "UTF-8" +:+ dq +:+ ">
  <meta name=" +:+ dq +:+ "viewport" +:+ dq +:+ " content=" +:+ dq
         +:+ "width=device-width, initial-scale=1.0" +:+ dq +:+ ">
  <title>Live Code Editor Export</title>
  ")). same_text.
  - eapply (includes_cut _ ("
<!DOCTYPE html>
<html>
<head>
  <meta charset=" +:+ dq +:+ "UTF-8" +:+ dq +:+ ">
  <meta name=" +:+ dq +:+ "viewport" +:+ dq +:+ " content=" +:+ dq
         +:+ "width=device-width, initial-scale=1.0" +:+ dq +:+ ">
  <title>Live Code Editor Export</title>
  <style>
" +:+ c +:+ "
  </style>
</head>
")). same_text.
  - reflexivity.
  - eapply (includes_cut _ "
<!DOCTYPE html>
<html>
<head>
  "). same_text.
  - eapply (includes_cut _ ("
<!DOCTYPE html>
<html>
<head>
  <meta charset=" +:+ dq +:+ "UTF-8" +:+ dq +:+ ">
  ")). same_text.
  - eapply (includes_cut _ ("
<!DOCTYPE html>
<html>
<head>
  <meta charset=" +:+ dq +:+ "UTF-8" +:+ dq +:+ ">
  <meta name=" +:+ dq +:+ "viewport" +:+ dq +:+ " content=" +:+ dq
         +:+ "width=device-width, initial-scale=1.0" +:+ dq +:+ ">
  ")). same_text.
  - rewrite !append_length_str. simpl. lia.
  - repeat split; vm_compute; reflexivity.
Qed.

(** ** Status bar *)

Lemma startsWith_prefix_append (s sub t : string) :
  startsWith s sub = true -> startsWith (s +:+ t) sub = true.
Proof.
  revert s. induction sub as [|c sub IH]; intros s H; [reflexivity |].
  destruct s as [|d s]; [discriminate |].
  rewrite append_cons. simpl in *.
  destruct (Ascii.eqb c d); [now apply IH | discriminate].
Qed.

Lemma includes_append_l (s t sub : string) :
  includes s sub = true -> includes (s +:+ t) sub = true.
Proof.
  induction s as [|d s IH]; intros H; simpl in H.
  - rewrite orb_false_r in H. destruct sub; [|discriminate].
    destruct t; reflexivity.
  - rewrite append_cons.
    change (includes (String d (s +:+ t)) sub)
      with (startsWith (String d (s +:+ t)) sub || includes (s +:+ t) sub).
    rewrite <- append_cons.
    apply orb_true_iff in H as [H | H].
    + now rewrite (startsWith_prefix_append (String d s) sub t H).
    + rewrite (IH H). apply orb_true_r.
Qed.

(** The messages of a failed write and of a failed preview are painted as
    errors whatever the exception says, and the two success messages are
    painted as information. *)
Lemma isErrorStatus_write_failure (msg : string) :
  isErrorStatus ("Failed to save: " +:+ msg) = true.
Proof.
  unfold isErrorStatus. apply orb_true_iff. right.
  now apply includes_append_l.
Qed.

Lemma isErrorStatus_preview_failure (msg : string) :
  isErrorStatus (previewErrorStatus msg) = true.
Proof.
  unfold isErrorStatus, previewErrorStatus. apply orb_true_iff. left.
  now apply includes_append_l.
Qed.

Lemma isErrorStatus_success :
  isErrorStatus "Code saved successfully!" = false
  /\ isErrorStatus "Downloaded successfully!" = false.
Proof. split; reflexivity. Qed.

(** C8: the status of a failed export whose exception says
    [document.body is null] is painted green: the test looks for [Error] and
    for the capitalised [Failed], and the export message spells [failed] in
    lower case. *)
Theorem export_failure_not_classified_as_error (w : World) :
  errorMsg (handleDownload (Some "document.body is null") w)
    = "Download failed: document.body is null"
  /\ isErrorStatus (errorMsg (handleDownload (Some "document.body is null") w)) = false
  /\ includes (errorMsg (handleDownload (Some "document.body is null") w)) "failed" = true.
Proof. repeat split. Qed.

(** ** Loading the persisted entries *)

Lemma ifTruthy_nonempty (v current : string) :
  v <> "" -> ifTruthy (Some v) current = v.
Proof. destruct v; [congruence | reflexivity]. Qed.

Lemma doc_mount (ls : gmap string string) : doc (mount ls) = loadSaved ls defaultDoc.
Proof.
  unfold mount, render. destruct (decide _) as [-> | _]; reflexivity.
Qed.

(** C5, as stated, fails: an entry that is present and holds the empty
    string is not taken from storage. *)
Lemma loadSaved_ignores_present_empty_entry :
  ({[KEY_HTML := ""]} : gmap string string) !! KEY_HTML = Some ""
  /\ htmlCode (loadSaved {[KEY_HTML := ""]} defaultDoc) = "<h1>Hello, World!</h1>"
  /\ htmlCode (loadSaved {[KEY_HTML := ""]} defaultDoc) <> "".
Proof. vm_compute. repeat split; discriminate. Qed.

(** C5 (amended): each field is loaded on its own.  A buffer is taken from
    storage when its entry is present and not empty, and keeps its default
    when the entry is missing; the mode flag is taken from storage when its
    entry is present and keeps its default when it is missing.  With only a
    non-empty style entry stored, the mounted document has that style and
    the default markup, script and mode. *)
Theorem loadSaved_per_field (ls : gmap string string) (d : Doc) :
  (forall v, ls !! KEY_HTML = Some v -> v <> "" -> htmlCode (loadSaved ls d) = v)
  /\ (ls !! KEY_HTML = None -> htmlCode (loadSaved ls d) = htmlCode d)
  /\ (forall v, ls !! KEY_CSS = Some v -> v <> "" -> cssCode (loadSaved ls d) = v)
  /\ (ls !! KEY_CSS = None -> cssCode (loadSaved ls d) = cssCode d)
  /\ (forall v, ls !! KEY_JS = Some v -> v <> "" -> jsCode (loadSaved ls d) = v)
  /\ (ls !! KEY_JS = None -> jsCode (loadSaved ls d) = jsCode d)
  /\ (forall v, ls !! KEY_DARK = Some v -> darkMode (loadSaved ls d) = bool_decide (v = "true"))
  /\ (ls !! KEY_DARK = None -> darkMode (loadSaved ls d) = darkMode d)
  /\ (forall s, s <> "" ->
        doc (mount {[KEY_CSS := s]}) = setCssCode s defaultDoc).
Proof.
  unfold loadSaved; simpl.
  repeat split; try (intros v Hv Hne; rewrite Hv; now apply ifTruthy_nonempty);
    try (intros Hv; now rewrite Hv).
  - intros v Hv. now rewrite Hv.
  - intros s Hs. rewrite doc_mount. unfold loadSaved, setCssCode.
    rewrite lookup_singleton_eq, (ifTruthy_nonempty s _ Hs).
    reflexivity.
Qed.

Lemma loadSaved_per_field_witness :
  cssCode (loadSaved {[KEY_CSS := "p{}"]} defaultDoc) = "p{}"
  /\ htmlCode (loadSaved {[KEY_CSS := "p{}"]} defaultDoc) = "<h1>Hello, World!</h1>"
  /\ doc (mount {[KEY_CSS := "p{}"]}) = setCssCode "p{}" defaultDoc.
Proof.
  destruct (loadSaved_per_field {[KEY_CSS := "p{}"]} defaultDoc)
    as (_ & Hhtml & Hcss & _ & _ & _ & _ & _ & Hmount).
  split; [| split].
  - apply Hcss; [reflexivity | discriminate].
  - apply Hhtml. reflexivity.
  - apply Hmount. discriminate.
Defined.

(** ** Writing the entries *)

Section Writes.

Variable browser : gmap string string -> string -> string -> option string.

(** The store after [setItems] holds the entries that precede the first
    rejected one, and all of them when none is rejected. *)
Lemma setItems_prefix (kvs : list (string * string)) (ls : gmap string string) :
  exists n,
    n <= length kvs
    /\ (setItems browser ls kvs).1 = putAll ls (take n kvs)
    /\ ((setItems browser ls kvs).2 = None -> n = length kvs)
    /\ (forall msg, (setItems browser ls kvs).2 = Some msg -> n < length kvs).
Proof.
  revert ls. induction kvs as [|[k v] kvs IH]; intros ls.
  - exists 0. simpl. repeat split; [lia | discriminate].
  - simpl. destruct (browser ls k v) as [msg|] eqn:Hb.
    + exists 0. simpl. repeat split; [lia | discriminate | intros; lia].
    + destruct (IH (<[k:=v]> ls)) as (n & Hn & Hst & Hok & Hko).
      exists (S n). simpl. repeat split.
      * lia.
      * exact Hst.
      * intros H. now rewrite (Hok H).
      * intros msg H. specialize (Hko msg H). lia.
Qed.

(** The same, with the answers of the browser: the calls before the [n]-th
    were accepted on the store as it stood then, and either all were, or
    the [n]-th threw. *)
Lemma setItems_trace (kvs : list (string * string)) (ls : gmap string string) :
  exists n,
    n <= length kvs
    /\ (setItems browser ls kvs).1 = putAll ls (take n kvs)
    /\ (forall i k v, i < n -> kvs !! i = Some (k, v) ->
          browser (putAll ls (take i kvs)) k v = None)
    /\ ((n = length kvs /\ (setItems browser ls kvs).2 = None)
        \/ (exists k v msg,
              kvs !! n = Some (k, v)
              /\ browser (putAll ls (take n kvs)) k v = Some msg
              /\ (setItems browser ls kvs).2 = Some msg)).
Proof.
  revert ls. induction kvs as [|[k v] kvs IH]; intros ls.
  - exists 0. simpl. repeat split; [lia | intros; lia | now left].
  - simpl. destruct (browser ls k v) as [msg|] eqn:Hb.
    + exists 0. simpl. repeat split; [lia | intros; lia |].
      right. now exists k, v, msg.
    + destruct (IH (<[k:=v]> ls)) as (n & Hn & Hst & Hacc & Hend).
      exists (S n). simpl. repeat split.
      * lia.
      * exact Hst.
      * intros [|i] k' v' Hi Hl; simpl in *.
        -- now injection Hl as <- <-.
        -- apply Hacc; [lia | exact Hl].
      * destruct Hend as [[-> Hok] | Hko]; [now left | now right].
Qed.

(** What the first [n] of the four writes leave under each of the four
    keys. *)
Lemma putAll_entries_lookup (ls : gmap string string) (d : Doc) (n i : nat)
    (k v : string) :
  entries d !! i = Some (k, v) ->
  putAll ls (take n (entries d)) !! k = if decide (i < n) then Some v else ls !! k.
Proof.
  unfold entries, putAll, KEY_HTML, KEY_CSS, KEY_JS, KEY_DARK.
  destruct i as [|[|[|[|i]]]]; simpl; intros H; simplify_eq;
    destruct n as [|[|[|[|n]]]]; simpl; rewrite ?take_nil; simpl;
    repeat case_decide; try lia; by simplify_map_eq.
Qed.

Lemma persisted_putAll (ls : gmap string string) (d : Doc) :
  persisted (putAll ls (entries d)) d.
Proof.
  unfold persisted, putAll, entries, KEY_HTML, KEY_CSS, KEY_JS, KEY_DARK.
  simpl. repeat split; by simplify_map_eq.
Qed.

Lemma setItems_accepted (ls : gmap string string) (d : Doc) :
  (setItems browser ls (entries d)).2 = None ->
  persisted (setItems browser ls (entries d)).1 d.
Proof.
  intros Hok.
  destruct (setItems_prefix (entries d) ls) as (n & _ & Hst & Hn & _).
  rewrite Hst, (Hn Hok). change (length (entries d)) with 4.
  rewrite (firstn_all2 (entries d)) by (simpl; lia).
  apply persisted_putAll.
Qed.

Lemma storage_saveBody (d : Doc) (w : World) :
  storage (saveBody browser d w) = (setItems browser (storage w) (entries d)).1.
Proof.
  unfold saveBody. destruct (setItems _ _ _) as [ls [msg|]]; reflexivity.
Qed.

Lemma errorMsg_saveBody (d : Doc) (w : World) :
  errorMsg (saveBody browser d w) =
    match (setItems browser (storage w) (entries d)).2 with
    | None => ""
    | Some msg => "Failed to save: " +:+ msg
    end.
Proof.
  unfold saveBody. destruct (setItems _ _ _) as [ls [msg|]]; reflexivity.
Qed.

Lemma timers_saveBody (d : Doc) (w : World) :
  timers (saveBody browser d w) = timers w.
Proof.
  unfold saveBody. destruct (setItems _ _ _) as [ls [msg|]]; reflexivity.
Qed.

Lemma now_saveBody (d : Doc) (w : World) :
  now (saveBody browser d w) = now w.
Proof.
  unfold saveBody. destruct (setItems _ _ _) as [ls [msg|]]; reflexivity.
Qed.

Lemma doc_saveBody (d : Doc) (w : World) :
  doc (saveBody browser d w) = doc w.
Proof.
  unfold saveBody. destruct (setItems _ _ _) as [ls [msg|]]; reflexivity.
Qed.

(** C6 (amended): a run of the save callback makes the four [setItem]
    calls one after the other and stops at the first one that throws.  With
    [n] the number of calls the browser accepted, each on the store as the
    calls before it left it: the entries of those [n] calls hold their new
    values, the entries of the call that threw and of the calls after it
    hold their previous values, and so does every other key.  When all four
    are accepted the store spells out the document and the status is
    cleared; otherwise the [n]-th call is the one that threw, and the
    status reports its message. *)
Theorem saveBody_writes_prefix (d : Doc) (w : World) :
  exists n,
    n <= 4
    /\ storage (saveBody browser d w) = putAll (storage w) (take n (entries d))
    /\ (forall i k v, i < n -> entries d !! i = Some (k, v) ->
          browser (putAll (storage w) (take i (entries d))) k v = None
          /\ storage (saveBody browser d w) !! k = Some v)
    /\ (forall i k v, n <= i -> entries d !! i = Some (k, v) ->
          storage (saveBody browser d w) !! k = storage w !! k)
    /\ (n = 4 ->
          persisted (storage (saveBody browser d w)) d
          /\ errorMsg (saveBody browser d w) = ""
          /\ codeChanged (saveBody browser d w) = false)
    /\ (n < 4 ->
          exists k v msg,
            entries d !! n = Some (k, v)
            /\ browser (putAll (storage w) (take n (entries d))) k v = Some msg
            /\ errorMsg (saveBody browser d w) = "Failed to save: " +:+ msg
            /\ codeChanged (saveBody browser d w) = codeChanged w).
Proof.
  destruct (setItems_trace (entries d) (storage w)) as (n & Hn & Hst & Hacc & Hend).
  exists n. rewrite storage_saveBody, errorMsg_saveBody.
  split; [exact Hn | split; [exact Hst | split; [| split; [| split]]]].
  - intros i k v Hi Hl. split; [now apply (Hacc i) |].
    rewrite Hst, (putAll_entries_lookup _ d n i k v Hl).
    destruct (decide (i < n)); [reflexivity | lia].
  - intros i k v Hi Hl.
    rewrite Hst, (putAll_entries_lookup _ d n i k v Hl).
    destruct (decide (i < n)); [lia | reflexivity].
  - intros ->. destruct Hend as [[_ Hok] | (k & v & msg & Hl & _)];
      [| apply lookup_lt_Some in Hl; simpl in Hl; lia].
    rewrite Hok.
    split; [now apply setItems_accepted | split; [reflexivity |]].
    unfold saveBody. destruct (setItems _ _ _) as [ls [m|]]; [discriminate | reflexivity].
  - intros Hlt. destruct Hend as [[-> _] | (k & v & msg & Hl & Hb & Hko)];
      [simpl in Hlt; lia |].
    exists k, v, msg. rewrite Hko.
    split; [exact Hl | split; [exact Hb | split; [reflexivity |]]].
    unfold saveBody. destruct (setItems _ _ _) as [ls [m|]]; [reflexivity | discriminate].
Qed.

End Writes.

Lemma saveBody_writes_prefix_witness :
  storage (saveBody (quota 149) bigScriptDoc idle)
    = putAll (storage idle) (take 2 (entries bigScriptDoc))
  /\ storage (saveBody (quota 149) bigScriptDoc idle) !! KEY_CSS = Some "y"
  /\ storage (saveBody (quota 149) bigScriptDoc idle) !! KEY_JS = storage idle !! KEY_JS.
Proof.
  destruct (saveBody_writes_prefix (quota 149) bigScriptDoc idle)
    as (n & Hn & Hst & Hacc & Hkeep & _ & Hfail).
  assert (H2 : n = 2).
  { destruct n as [|[|[|n]]].
    - destruct (Hfail ltac:(lia)) as (k & v & msg & Hl & Hb & _).
      injection Hl as <- <-. vm_compute in Hb. discriminate.
    - destruct (Hfail ltac:(lia)) as (k & v & msg & Hl & Hb & _).
      injection Hl as <- <-. vm_compute in Hb. discriminate.
    - reflexivity.
    - destruct (Hacc 2 KEY_JS (jsCode bigScriptDoc) ltac:(lia) eq_refl) as [Hb _].
      vm_compute in Hb. discriminate. }
  subst n. split; [exact Hst | split].
  - apply (Hacc 1 KEY_CSS "y"); [lia | reflexivity].
  - apply (Hkeep 2 KEY_JS (jsCode bigScriptDoc)); [lia | reflexivity].
Defined.

(** C9: a markup, style or script entry that holds the empty string is
    treated as missing and the buffer keeps its default, which is not empty;
    the mode flag is read from any entry that is present, the empty one
    included, and keeps its default only when the entry is missing.  So a
    document with an emptied markup buffer, once written in full and loaded
    again, comes back with the default markup. *)
Theorem loadSaved_empty_buffer_falls_back (ls : gmap string string) (d : Doc) :
  (ls !! KEY_HTML = Some "" -> htmlCode (loadSaved ls d) = htmlCode d)
  /\ (ls !! KEY_CSS = Some "" -> cssCode (loadSaved ls d) = cssCode d)
  /\ (ls !! KEY_JS = Some "" -> jsCode (loadSaved ls d) = jsCode d)
  /\ (forall v, ls !! KEY_DARK = Some v ->
        darkMode (loadSaved ls d) = bool_decide (v = "true"))
  /\ (ls !! KEY_DARK = Some "" -> darkMode (loadSaved ls d) = false)
  /\ (ls !! KEY_DARK = None -> darkMode (loadSaved ls d) = darkMode d)
  /\ htmlCode defaultDoc <> "" /\ cssCode defaultDoc <> "" /\ jsCode defaultDoc <> ""
  /\ (persisted ls d -> htmlCode d = "" ->
        htmlCode (doc (mount ls)) = "<h1>Hello, World!</h1>"
        /\ htmlCode (doc (mount ls)) <> htmlCode d).
Proof.
  unfold loadSaved; simpl.
  split; [now intros -> |]. split; [now intros -> |]. split; [now intros -> |].
  split; [now intros v -> |]. split; [now intros -> |]. split; [now intros -> |].
  split; [discriminate |]. split; [discriminate |]. split; [discriminate |].
  intros (Hh & _) He. rewrite doc_mount. unfold loadSaved; simpl.
  rewrite Hh, He. split; [reflexivity | discriminate].
Qed.

Lemma loadSaved_empty_buffer_falls_back_witness :
  let ls := storage (saveBody storesAll emptiedMarkup idle) in
  ls !! KEY_HTML = Some ""
  /\ htmlCode (loadSaved ls defaultDoc) = "<h1>Hello, World!</h1>"
  /\ htmlCode (doc (mount ls)) <> htmlCode emptiedMarkup.
Proof.
  intros ls.
  destruct (loadSaved_empty_buffer_falls_back ls defaultDoc)
    as (Hh & _ & _ & _ & _ & _ & _ & _ & _ & _).
  destruct (loadSaved_empty_buffer_falls_back ls emptiedMarkup)
    as (_ & _ & _ & _ & _ & _ & _ & _ & _ & Hreload).
  assert (Hp : persisted ls emptiedMarkup).
  { unfold ls. rewrite storage_saveBody. apply setItems_accepted. reflexivity. }
  split; [apply Hp | split].
  - apply Hh. apply Hp.
  - apply Hreload; [exact Hp | reflexivity].
Defined.

(** C6, as stated, fails: with the store filled to its quota by the
    defaults, a write of a document with a longer script replaces the
    markup and style entries and then throws, leaving the script and mode
    entries at their previous values. *)
Lemma saveBody_partial_update :
  let w := saveBody (quota 149) bigScriptDoc idle in
  persisted (storage idle) defaultDoc
  /\ storage w !! KEY_HTML = Some (htmlCode bigScriptDoc)
  /\ storage w !! KEY_CSS = Some (cssCode bigScriptDoc)
  /\ storage w !! KEY_JS = Some (jsCode defaultDoc)
  /\ storage w !! KEY_DARK = Some "true"
  /\ jsCode defaultDoc <> jsCode bigScriptDoc
  /\ bool_toString (darkMode bigScriptDoc) <> "true"
  /\ errorMsg w = "Failed to save: The quota has been exceeded.".
Proof. vm_compute. repeat split; discriminate. Qed.

(** ** The timer queue *)

Local Open Scope list_scope.

Lemma pick_perm (q : list Timer) (y : Timer) (r : list Timer) :
  pick q = Some (y, r) -> q ≡ₚ y :: r.
Proof.
  revert y r. induction q as [|x q IH]; intros y r H; simpl in H; [discriminate |].
  destruct (pick q) as [[z s]|] eqn:Hq.
  - destruct (due x <=? due z)%nat; inversion H; subst; [reflexivity |].
    rewrite (IH _ _ eq_refl). apply Permutation_swap.
  - destruct q; [| simpl in Hq; destruct (pick q) as [[? ?]|];
                    [destruct (_ <=? _)%nat|]; discriminate].
    inversion H; subst. reflexivity.
Qed.

Lemma pick_nonempty (x : Timer) (q : list Timer) : pick (x :: q) <> None.
Proof.
  simpl. destruct (pick q) as [[z s]|]; [destruct (_ <=? _)%nat|]; discriminate.
Qed.

(** The picked timer is due no later than any timer of the queue. *)
Lemma pick_min (q : list Timer) (y : Timer) (r : list Timer) :
  pick q = Some (y, r) -> Forall (fun x => due y <= due x) q.
Proof.
  revert y r. induction q as [|x q IH]; intros y r H; simpl in H; [discriminate |].
  destruct (pick q) as [[z s]|] eqn:Hq.
  - specialize (IH _ _ eq_refl).
    destruct (Nat.leb_spec (due x) (due z)); inversion H; subst.
    + constructor; [lia |]. eapply Forall_impl; [exact IH |].
      intros t Ht. simpl in Ht. lia.
    + constructor; [lia | exact IH].
  - destruct q as [|x' q]; [| now apply pick_nonempty in Hq].
    inversion H; subst. constructor; [lia | constructor].
Qed.

(** A timer that is due no earlier than all the others and was created
    last is picked last. *)
Lemma pick_snoc_last (c : Timer) (q : list Timer) :
  q <> [] ->
  Forall (fun x => due x <= due c) q ->
  exists y r, pick q = Some (y, r) /\ pick (q ++ [c]) = Some (y, r ++ [c]).
Proof.
  induction q as [|x q IH]; intros Hne Hall; [congruence |].
  apply Forall_cons in Hall as [Hx Hall].
  destruct q as [|x' q].
  - exists x, []. simpl. split; [reflexivity |].
    destruct (Nat.leb_spec (due x) (due c)); [reflexivity | lia].
  - destruct (IH ltac:(discriminate) Hall) as (y & r & Hq & Hqc).
    change (pick (x :: x' :: q)) with
      (match pick (x' :: q) with
       | None => Some (x, [])
       | Some (y, r) => if (due x <=? due y)%nat then Some (x, x' :: q) else Some (y, x :: r)
       end).
    change (pick ((x :: x' :: q) ++ [c])) with
      (match pick ((x' :: q) ++ [c]) with
       | None => Some (x, [])
       | Some (y, r) =>
           if (due x <=? due y)%nat then Some (x, (x' :: q) ++ [c]) else Some (y, x :: r)
       end).
    rewrite Hq, Hqc.
    destruct (due x <=? due y)%nat; eexists _, _; split; reflexivity.
Qed.

Section Transitions.

Variable browser : gmap string string -> string -> string -> option string.

Lemma timers_fire (x : Timer) (w : World) : timers (fire browser x w) = timers w.
Proof.
  unfold fire. destruct (action x); [apply timers_saveBody | reflexivity].
Qed.

Lemma now_fire (x : Timer) (w : World) : now (fire browser x w) = now w.
Proof.
  unfold fire. destruct (action x); [apply now_saveBody | reflexivity].
Qed.

(** Once every timer ahead of a status timer has fired, the status timer
    fires and leaves the status bar empty. *)
Lemma run_timers_clears (T : nat) (c : Timer) :
  action c = ClearStatus ->
  due c <= T ->
  forall (q : list Timer) (w : World),
    timers w = q ++ [c] ->
    Forall (fun x => due x <= due c) q ->
    errorMsg (run_timers browser (S (length q)) T w) = "".
Proof.
  intros Hact HT q.
  remember (length q) as n eqn:Hn. revert q Hn.
  induction n as [|n IH]; intros q Hn w Hw Hall.
  - destruct q; [| discriminate]. simpl in Hw. simpl. rewrite Hw. simpl.
    destruct (Nat.leb_spec (due c) T); [| lia].
    unfold fire. rewrite Hact. reflexivity.
  - assert (Hne : q <> []) by (destruct q; [discriminate | congruence]).
    destruct (pick_snoc_last c q Hne Hall) as (y & r & Hq & Hqc).
    pose proof (pick_perm _ _ _ Hq) as Hperm.
    assert (Hall' : Forall (fun x => due x <= due c) (y :: r))
      by (now rewrite <- Hperm).
    apply Forall_cons in Hall' as [Hy Hr].
    assert (Hlen : n = length r).
    { apply Permutation_length in Hperm. simpl in Hperm. lia. }
    change (run_timers browser (S (S n)) T w) with
      (match pick (timers w) with
       | Some (x, rest) =>
           if (due x <=? T)%nat
           then run_timers browser (S n) T
                  (fire browser x (withNow (Nat.max (now w) (due x)) (withTimers rest w)))
           else w
       | None => w
       end).
    rewrite Hw, Hqc.
    destruct (Nat.leb_spec (due y) T); [| lia].
    apply (IH r Hlen); [| exact Hr].
    now rewrite timers_fire.
Qed.

(** The fuel given by [advance] is enough: no timer that is due by [T]
    is left in the queue. *)
Lemma run_timers_complete (fuel T : nat) (w : World) :
  length (timers w) <= fuel ->
  Forall (fun x => T < due x) (timers (run_timers browser fuel T w)).
Proof.
  revert w. induction fuel as [|fuel IH]; intros w Hlen.
  - destruct (timers w) eqn:Hq; [| simpl in Hlen; lia].
    simpl. rewrite Hq. constructor.
  - simpl. destruct (pick (timers w)) as [[x rest]|] eqn:Hp.
    + pose proof (pick_perm _ _ _ Hp) as Hperm.
      destruct (Nat.leb_spec (due x) T) as [Hdue | Hdue].
      * apply IH. rewrite timers_fire. simpl.
        apply Permutation_length in Hperm. simpl in Hperm. lia.
      * apply pick_min in Hp. eapply Forall_impl; [exact Hp |].
        intros y Hy. simpl in Hy. lia.
    + destruct (timers w) as [|x q] eqn:Hq; [constructor |].
      now apply pick_nonempty in Hp.
Qed.

Lemma advance_complete (T : nat) (w : World) :
  Forall (fun x => T < due x) (timers (advance browser T w)).
Proof. unfold advance. simpl. now apply run_timers_complete. Qed.

Lemma errorMsg_advance (T : nat) (w : World) :
  errorMsg (advance browser T w)
    = errorMsg (run_timers browser (length (timers w)) T w).
Proof. reflexivity. Qed.

Lemma advance_clears (T : nat) (c : Timer) (q : list Timer) (w : World) :
  action c = ClearStatus ->
  due c <= T ->
  timers w = q ++ [c] ->
  Forall (fun x => due x <= due c) q ->
  errorMsg (advance browser T w) = "".
Proof.
  intros Hact HT Hw Hall. rewrite errorMsg_advance, Hw, length_app.
  simpl. rewrite Nat.add_1_r.
  now apply (run_timers_clears T c Hact HT q w).
Qed.

(** With nothing pending, time changes nothing but the clock. *)
Lemma advance_idle (T : nat) (w : World) :
  timers w = [] -> advance browser T w = withNow (Nat.max (now w) T) w.
Proof. intros H. unfold advance. rewrite H. reflexivity. Qed.

Lemma Forall_disarm (P : Timer -> Prop) (id : nat) (q : list Timer) :
  Forall P q -> Forall P (disarm id q).
Proof.
  induction 1 as [|x q Hx _ IH]; simpl; [constructor |].
  destruct (action x) as [i d|].
  - destruct (decide (i = id)); [exact IH | now constructor].
  - now constructor.
Qed.

Lemma pendingSave_disarm (id : nat) (q : list Timer) :
  pendingSave id (disarm id q) = None.
Proof.
  induction q as [|x q IH]; simpl; [reflexivity |].
  destruct (action x) as [i d|] eqn:Hx.
  - destruct (decide (i = id)) as [-> | Hne]; [exact IH |].
    simpl. rewrite Hx. destruct (decide (i = id)); [contradiction | exact IH].
  - simpl. now rewrite Hx.
Qed.

Lemma Forall_timers_flush (P : Timer -> Prop) (w : World) :
  Forall P (timers w) -> Forall P (timers (flush browser w)).
Proof.
  intros H. unfold flush. destruct (pendingSave _ _); [| exact H].
  rewrite timers_saveBody. now apply Forall_disarm.
Qed.

Lemma now_flush (w : World) : now (flush browser w) = now w.
Proof.
  unfold flush. destruct (pendingSave _ _); [| reflexivity].
  now rewrite now_saveBody.
Qed.

Lemma doc_flush (w : World) : doc (flush browser w) = doc w.
Proof.
  unfold flush. destruct (pendingSave _ _); [| reflexivity].
  now rewrite doc_saveBody.
Qed.

(** A manual save while the write of the current debounced function is
    pending, on a browser that accepts the entries, stores the document
    that function closed over and disarms that function. *)
Lemma handleSave_pending_accepted (w : World) (d : Doc) :
  pendingSave (currentId w) (timers w) = Some d ->
  (setItems browser (storage w) (entries d)).2 = None ->
  persisted (storage (handleSave browser w)) d
  /\ pendingSave (currentId w) (timers (flush browser w)) = None.
Proof.
  intros Hp Hok. unfold handleSave, flush. rewrite Hp. simpl.
  rewrite storage_saveBody, timers_saveBody. simpl.
  split; [now apply setItems_accepted | apply pendingSave_disarm].
Qed.

(** Re-rendering never removes a timer: the debounced functions of
    earlier renders stay armed. *)
Lemma render_keeps_timers (d : Doc) (w : World) :
  exists q, timers (render d w) = timers w ++ q.
Proof.
  unfold render. destruct (decide _).
  - exists []. now rewrite app_nil_r.
  - eexists. reflexivity.
Qed.

(** *** The bound on deadlines is an invariant *)

Lemma timers_bounded_later (w : World) (q : list Timer) (t : nat) :
  now w <= t ->
  Forall (fun x => due x <= now w + STATUS_DELAY) q ->
  Forall (fun x => due x <= t + STATUS_DELAY) q.
Proof.
  intros Hle H. eapply Forall_impl; [exact H |].
  intros x Hx. simpl in *. lia.
Qed.

Lemma run_timers_bounded (fuel T : nat) (w : World) :
  timers_bounded w ->
  timers_bounded (run_timers browser fuel T w) /\ now w <= now (run_timers browser fuel T w).
Proof.
  revert w. induction fuel as [|fuel IH]; intros w Hw; simpl; [split; [exact Hw | lia] |].
  destruct (pick (timers w)) as [[x rest]|] eqn:Hp; [| split; [exact Hw | lia]].
  destruct (due x <=? T)%nat; [| split; [exact Hw | lia]].
  set (w1 := fire browser x _).
  assert (Hnow : now w1 = Nat.max (now w) (due x)) by (unfold w1; now rewrite now_fire).
  assert (Hw1 : timers_bounded w1).
  { unfold timers_bounded, w1. rewrite timers_fire. fold w1. rewrite Hnow. simpl.
    apply pick_perm in Hp. unfold timers_bounded in Hw. rewrite Hp in Hw.
    apply Forall_cons in Hw as [_ Hw].
    apply (timers_bounded_later w); [lia | exact Hw]. }
  destruct (IH w1 Hw1) as [Hb Hle]. split; [exact Hb | lia].
Qed.

Lemma render_bounded (d : Doc) (w : World) :
  timers_bounded w -> timers_bounded (render d w).
Proof.
  intros Hw. unfold render. destruct (decide _); [exact Hw |].
  unfold timers_bounded. simpl. apply Forall_app. split; [exact Hw |].
  constructor; [simpl; unfold DEBOUNCE_WAIT, STATUS_DELAY; lia | constructor].
Qed.

Lemma flush_bounded (w : World) :
  timers_bounded w ->
  Forall (fun x => due x <= now w + STATUS_DELAY) (timers (flush browser w)).
Proof.
  intros Hw. now apply Forall_timers_flush.
Qed.

Lemma step_bounded (w : World) (e : Event) :
  timers_bounded w -> timers_bounded (step browser w e).
Proof.
  intros Hw. destruct e; simpl; try now apply render_bounded.
  - unfold handleSave, timers_bounded. simpl. rewrite now_flush.
    apply Forall_app. split; [now apply flush_bounded |].
    constructor; [simpl; lia | constructor].
  - destruct thrown as [msg|]; [exact Hw |].
    unfold handleDownload, timers_bounded. simpl.
    apply Forall_app. split; [exact Hw |].
    constructor; [simpl; lia | constructor].
  - unfold advance.
    destruct (run_timers_bounded (length (timers w)) (now w + ms) w Hw) as [Hb _].
    unfold timers_bounded in *. simpl.
    eapply Forall_impl; [exact Hb |]. intros x Hx. simpl in Hx. lia.
Qed.

(** Every state the component reaches keeps its timers within the bound
    that the expiry of a status message relies on. *)
Lemma reachable_bounded (w : World) : reachable browser w -> timers_bounded w.
Proof.
  induction 1 as [ls | w e _ IH].
  - apply render_bounded. unfold timers_bounded, firstRender. simpl.
    constructor; [simpl; unfold DEBOUNCE_WAIT, STATUS_DELAY; lia | constructor].
  - now apply step_bounded.
Qed.

End Transitions.

(** ** Manual save *)

(** C10: whatever the state, after a manual save the status reads
    [Code saved successfully!] and is painted as information, and the store
    is the one the flush left.  When the flushed write is rejected by the
    browser, the flush reports the failure and leaves the store short of the
    document, and the manual save replaces that report by the success
    message. *)
Theorem handleSave_reports_success
    (browser : gmap string string -> string -> string -> option string) (w : World) :
  errorMsg (handleSave browser w) = "Code saved successfully!"
  /\ isErrorStatus (errorMsg (handleSave browser w)) = false
  /\ storage (handleSave browser w) = storage (flush browser w)
  /\ (forall d msg,
        pendingSave (currentId w) (timers w) = Some d ->
        (setItems browser (storage w) (entries d)).2 = Some msg ->
        errorMsg (flush browser w) = "Failed to save: " +:+ msg
        /\ isErrorStatus (errorMsg (flush browser w)) = true
        /\ (exists n, n < 4 /\
              storage (handleSave browser w) = putAll (storage w) (take n (entries d)))
        /\ errorMsg (handleSave browser w) = "Code saved successfully!").
Proof.
  split; [reflexivity |]. split; [reflexivity |]. split; [reflexivity |].
  intros d msg Hp Hko.
  assert (Hflush : flush browser w
                   = saveBody browser d (withTimers (disarm (currentId w) (timers w)) w))
    by (unfold flush; now rewrite Hp).
  split; [| split; [| split; [| reflexivity]]].
  - rewrite Hflush, errorMsg_saveBody.
    change (storage (withTimers (disarm (currentId w) (timers w)) w)) with (storage w).
    now rewrite Hko.
  - rewrite Hflush, errorMsg_saveBody.
    change (storage (withTimers (disarm (currentId w) (timers w)) w)) with (storage w).
    rewrite Hko. apply isErrorStatus_write_failure.
  - destruct (setItems_prefix browser (entries d) (storage w)) as (n & _ & Hst & _ & Hlt).
    exists n. split; [exact (Hlt msg Hko) |].
    change (storage (handleSave browser w)) with (storage (flush browser w)).
    rewrite Hflush, storage_saveBody. exact Hst.
Qed.

Lemma handleSave_reports_success_witness :
  errorMsg (flush (quota 149) bigScriptTyped)
    = "Failed to save: The quota has been exceeded."
  /\ errorMsg (handleSave (quota 149) bigScriptTyped) = "Code saved successfully!"
  /\ storage (handleSave (quota 149) bigScriptTyped) !! KEY_JS
     <> Some (jsCode (doc bigScriptTyped)).
Proof.
  destruct (handleSave_reports_success (quota 149) bigScriptTyped) as (_ & _ & _ & H).
  destruct (H (doc bigScriptTyped) "The quota has been exceeded.") as (Hf & _ & _ & Hs).
  - vm_compute. reflexivity.
  - vm_compute. reflexivity.
  - split; [exact Hf | split; [exact Hs |]].
    vm_compute. discriminate.
Defined.

(** ** Expiry of status messages *)

(** While no pending timer is due, time changes nothing but the clock. *)
Lemma advance_nothing_due
    (browser : gmap string string -> string -> string -> option string)
    (T : nat) (w : World) :
  Forall (fun x => T < due x) (timers w) ->
  advance browser T w = withNow (Nat.max (now w) T) w.
Proof.
  intros Hall. unfold advance.
  assert (H : run_timers browser (length (timers w)) T w = w); [| now rewrite H].
  destruct (length (timers w)) as [|fuel]; [reflexivity |].
  simpl. destruct (pick (timers w)) as [[y rest]|] eqn:Hp; [| reflexivity].
  apply pick_perm in Hp. rewrite Hp in Hall. apply Forall_cons in Hall as [Hy _].
  destruct (Nat.leb_spec (due y) T); [lia | reflexivity].
Qed.

(** A timer that fires leaves the status empty or reporting a failed
    write, and so does any run of timers that starts from such a status. *)
Lemma fire_status
    (browser : gmap string string -> string -> string -> option string)
    (y : Timer) (w : World) :
  errorMsg (fire browser y w) = ""
  \/ exists m, errorMsg (fire browser y w) = "Failed to save: " +:+ m.
Proof.
  unfold fire. destruct (action y) as [i d|]; [| now left].
  rewrite errorMsg_saveBody. destruct (setItems _ _ _).2 as [m|]; [right | left]; eauto.
Qed.

Lemma run_timers_status
    (browser : gmap string string -> string -> string -> option string)
    (fuel T : nat) (w : World) :
  (errorMsg w = "" \/ exists m, errorMsg w = "Failed to save: " +:+ m) ->
  errorMsg (run_timers browser fuel T w) = ""
  \/ exists m, errorMsg (run_timers browser fuel T w) = "Failed to save: " +:+ m.
Proof.
  revert w. induction fuel as [|fuel IH]; intros w Hw; [exact Hw |].
  simpl. destruct (pick (timers w)) as [[y rest]|]; [| exact Hw].
  destruct (due y <=? T)%nat; [| exact Hw].
  apply IH, fire_status.
Qed.

(** Once a pending timer is due, whatever was on display has been replaced
    by what the timers left. *)
Lemma advance_some_due
    (browser : gmap string string -> string -> string -> option string)
    (T : nat) (w : World) :
  Exists (fun x => due x <= T) (timers w) ->
  errorMsg (advance browser T w) = ""
  \/ exists m, errorMsg (advance browser T w) = "Failed to save: " +:+ m.
Proof.
  intros Hex. rewrite errorMsg_advance.
  apply Exists_exists in Hex as (x & Hx & Hdue).
  destruct (timers w) as [|x0 q] eqn:Hq; [now apply elem_of_nil in Hx |].
  change (length (x0 :: q)) with (S (length q)).
  change (run_timers browser (S (length q)) T w) with
    (match pick (timers w) with
     | Some (y, rest) =>
         if (due y <=? T)%nat
         then run_timers browser (length q) T
                (fire browser y (withNow (Nat.max (now w) (due y)) (withTimers rest w)))
         else w
     | None => w
     end).
  destruct (pick (timers w)) as [[y rest]|] eqn:Hp;
    [| rewrite Hq in Hp; now apply pick_nonempty in Hp].
  assert (Hy : due y <= T).
  { apply pick_min in Hp. rewrite Hq in Hp. rewrite Forall_forall in Hp.
    specialize (Hp x Hx). lia. }
  destruct (Nat.leb_spec (due y) T); [| lia].
  apply run_timers_status, fire_status.
Qed.




(** ** Debounced writes *)

(** C1: two edits half a second apart, then a manual save: the save stores
    the document, but the timer armed by the first edit's debounced function
    is still pending; it fires 400 ms later and puts the first edit back in
    the store, and a second manual save, with no timer armed on the current
    function, writes nothing.  The store then differs from the document. *)
Theorem manual_save_overwritten_by_stale_write :
  let w1 := run storesAll twoEditsBeforeSave idle in
  let w2 := handleSave storesAll w1 in
  let w3 := advance storesAll (now w2 + 400) w2 in
  let w4 := handleSave storesAll w3 in
  htmlCode (doc w2) = "ab"
  /\ persisted (storage w2) (doc w2)
  /\ pendingSave 1 (timers w2) = Some (setHtmlCode "a" defaultDoc)
  /\ storage w3 !! KEY_HTML = Some "a"
  /\ doc w4 = doc w2
  /\ storage w4 !! KEY_HTML = Some "a"
  /\ ~ persisted (storage w4) (doc w4)
  /\ errorMsg w4 = "Code saved successfully!".
Proof.
  vm_compute. repeat split.
  intros [H _]. discriminate.
Qed.

(** C2: two edits half a second apart, then a quiet second: both debounced
    functions stay armed after the second edit, and the save callback runs
    twice, first with the first edit's document and half a second later with
    the second edit's. *)
Theorem two_rapid_edits_write_twice :
  let w1 := run storesAll [EditHtml "a"; Elapse 500; EditHtml "ab"] idle in
  let w2 := run storesAll twoRapidEdits idle in
  timers w1 = [ mkTimer 2000 (InvokeSave 1 (setHtmlCode "a" defaultDoc));
                mkTimer 2500 (InvokeSave 2 (setHtmlCode "ab" defaultDoc)) ]
  /\ writeLog w2 = writeLog idle ++ [ (2000, setHtmlCode "a" defaultDoc);
                                      (2500, setHtmlCode "ab" defaultDoc) ]
  /\ length (writeLog w2) = length (writeLog idle) + 2
  /\ now w2 = 2500.
Proof. vm_compute. repeat split. Qed.

(** * Further properties of the component *)

(** ** Substring tests, characterised *)

Lemma startsWith_spec (s p : string) :
  startsWith s p = true <-> exists b, s = p +:+ b.
Proof.
  split.
  - revert s. induction p as [|c p IH]; intros s H.
    + now exists s.
    + destruct s as [|d s]; [discriminate |]. simpl in H.
      destruct (Ascii.eqb_spec c d) as [-> | _]; [| discriminate].
      destruct (IH s H) as [b ->]. now exists b.
  - intros [b ->]. apply startsWith_append.
Qed.

Lemma includes_spec (s sub : string) :
  includes s sub = true <-> exists a b, s = a +:+ sub +:+ b.
Proof.
  split.
  - induction s as [|c s IH]; simpl; intros H.
    + rewrite orb_false_r in H. apply startsWith_spec in H as [b Hb].
      now exists "", b.
    + apply orb_true_iff in H as [H | H].
      * apply startsWith_spec in H as [b Hb]. now exists "", b.
      * destruct (IH H) as (a & b & ->). now exists (String c a), b.
  - intros (a & b & ->). apply includes_infix.
Qed.

(** The status bar is left out exactly for the empty message, and is red
    exactly for the messages that have [Error] or [Failed], spelled this
    way, somewhere inside; every other message is green. *)
Theorem statusBarClass_spec (m : string) :
  (statusBarClass m = None <-> m = "")
  /\ (statusBarClass m = Some "py-1 px-3 text-sm bg-red-600 text-white"
      <-> exists a b, m = a +:+ "Error" +:+ b \/ m = a +:+ "Failed" +:+ b)
  /\ (statusBarClass m = Some "py-1 px-3 text-sm bg-green-600 text-white"
      <-> m <> "" /\ forall a b, m <> a +:+ "Error" +:+ b /\ m <> a +:+ "Failed" +:+ b).
Proof.
  assert (Hred : isErrorStatus m = true
                 <-> exists a b, m = a +:+ "Error" +:+ b \/ m = a +:+ "Failed" +:+ b).
  { unfold isErrorStatus. rewrite orb_true_iff, !includes_spec. split.
    - intros [(a & b & H) | (a & b & H)]; exists a, b; [now left | now right].
    - intros (a & b & [H | H]); [left | right]; now exists a, b. }
  split; [| split].
  - destruct m; simpl; split; congruence.
  - rewrite <- Hred. destruct m as [|c m].
    + split; [discriminate | intros H; vm_compute in H; discriminate].
    + unfold statusBarClass. destruct (isErrorStatus (String c m)); split;
        (reflexivity || discriminate || (intros H; vm_compute in H; discriminate)).
  - split.
    + intros H. split; [intros ->; discriminate |].
      intros a b.
      assert (Hno : isErrorStatus m <> true).
      { destruct m as [|c m]; [discriminate |]. unfold statusBarClass in H.
        destruct (isErrorStatus (String c m)); [| discriminate].
        vm_compute in H. discriminate. }
      split; intros Heq; apply Hno, Hred; exists a, b; [now left | now right].
    + intros [Hne Hno]. destruct m as [|c m]; [congruence |].
      assert (He : isErrorStatus (String c m) = false).
      { apply not_true_is_false. intros He.
        apply Hred in He as (a & b & [H | H]); destruct (Hno a b); contradiction. }
      unfold statusBarClass. rewrite He. reflexivity.
Qed.

(** ** Layout *)

(** After a click on the expand button of panel [p]: when [p] was the
    expanded panel all four panels are on screen again, and otherwise [p]
    alone is; the inline [display] of the panels and their classes never
    disagree about it, in either theme. *)
Theorem toggleExpand_shows (expanded : option Panel) (darkMode : bool) (p q : Panel) :
  panelVisible (toggleExpand p expanded) darkMode q
    = (if decide (expanded = Some p) then true else bool_decide (q = p))
  /\ panelVisibleByClass (toggleExpand p expanded) darkMode q
     = panelVisible (toggleExpand p expanded) darkMode q
  /\ (expandTitle (toggleExpand p expanded) q = "Minimize"
      <-> toggleExpand p expanded = Some q).
Proof.
  split; [| split].
  - destruct expanded as [[]|], darkMode, p, q; vm_compute; reflexivity.
  - destruct expanded as [[]|], darkMode, p, q; vm_compute; reflexivity.
  - unfold expandTitle. destruct (decide _); split; (congruence || discriminate).
Qed.

(** ** Loading what was written *)

Lemma bool_toString_roundtrip (b : bool) : bool_decide (bool_toString b = "true") = b.
Proof. destruct b; reflexivity. Qed.

Lemma loadSaved_persisted (ls : gmap string string) (d d0 : Doc) :
  persisted ls d ->
  htmlCode d <> "" -> cssCode d <> "" -> jsCode d <> "" ->
  loadSaved ls d0 = d.
Proof.
  intros (Hh & Hc & Hj & Hd) Nh Nc Nj. unfold loadSaved. cbv zeta.
  rewrite Hh, Hc, Hj, Hd.
  rewrite !ifTruthy_nonempty by assumption.
  unfold ifNotNull. rewrite bool_toString_roundtrip. now destruct d.
Qed.

(** Round trip: a document whose three buffers are not empty, once written
    in full, is the document the editor opens with on that store. *)
Theorem write_then_mount_roundtrip
    (browser : gmap string string -> string -> string -> option string)
    (d : Doc) (w : World) :
  htmlCode d <> "" -> cssCode d <> "" -> jsCode d <> "" ->
  (setItems browser (storage w) (entries d)).2 = None ->
  doc (mount (storage (saveBody browser d w))) = d.
Proof.
  intros Nh Nc Nj Hok. rewrite doc_mount, storage_saveBody.
  apply loadSaved_persisted; try assumption.
  now apply setItems_accepted.
Qed.

Lemma write_then_mount_roundtrip_witness :
  doc (mount (storage (saveBody storesAll bigScriptDoc idle))) = bigScriptDoc.
Proof.
  apply write_then_mount_roundtrip; [discriminate | discriminate | discriminate | reflexivity].
Defined.

Lemma ifTruthy_keeps_nonempty (saved : option string) (current : string) :
  current <> "" -> ifTruthy saved current <> "".
Proof. destruct saved as [[|c s]|]; simpl; [auto | discriminate | auto]. Qed.

Lemma loadSaved_default_nonempty (ls : gmap string string) :
  htmlCode (loadSaved ls defaultDoc) <> ""
  /\ cssCode (loadSaved ls defaultDoc) <> ""
  /\ jsCode (loadSaved ls defaultDoc) <> "".
Proof.
  unfold loadSaved. simpl.
  repeat split; apply ifTruthy_keeps_nonempty; discriminate.
Qed.

(** Whatever the store holds, the editor opens with three buffers that are
    not empty. *)
Theorem mount_buffers_nonempty (ls : gmap string string) :
  htmlCode (doc (mount ls)) <> ""
  /\ cssCode (doc (mount ls)) <> ""
  /\ jsCode (doc (mount ls)) <> "".
Proof. rewrite doc_mount. apply loadSaved_default_nonempty. Qed.

(** ** What a write and an event leave alone *)

Lemma putAll_idempotent (ls : gmap string string) (d : Doc) :
  putAll (putAll ls (entries d)) (entries d) = putAll ls (entries d).
Proof.
  apply map_eq. intros k. unfold putAll, entries. simpl.
  rewrite !lookup_insert. repeat case_decide; congruence.
Qed.

Section Frames.

Variable browser : gmap string string -> string -> string -> option string.

Lemma setItems_other_keys (kvs : list (string * string)) (ls : gmap string string) (k : string) :
  k ∉ kvs.*1 -> (setItems browser ls kvs).1 !! k = ls !! k.
Proof.
  revert ls. induction kvs as [|[k' v] kvs IH]; intros ls Hk; [reflexivity |].
  simpl in *. apply not_elem_of_cons in Hk as [Hne Hk].
  destruct (browser ls k' v); [reflexivity |].
  rewrite (IH _ Hk). now apply lookup_insert_ne.
Qed.

Lemma saveBody_other_keys (d : Doc) (w : World) (k : string) :
  ~ ownKey k -> storage (saveBody browser d w) !! k = storage w !! k.
Proof.
  intros Hk. rewrite storage_saveBody. apply setItems_other_keys.
  unfold ownKey in Hk. simpl. rewrite !not_elem_of_cons.
  repeat split; try tauto. apply not_elem_of_nil.
Qed.

Lemma run_timers_other_keys (fuel T : nat) (w : World) (k : string) :
  ~ ownKey k -> storage (run_timers browser fuel T w) !! k = storage w !! k.
Proof.
  intros Hk. revert w. induction fuel as [|fuel IH]; intros w; [reflexivity |].
  simpl. destruct (pick (timers w)) as [[x rest]|]; [| reflexivity].
  destruct (due x <=? T)%nat; [| reflexivity].
  rewrite IH. unfold fire. destruct (action x); [| reflexivity].
  now rewrite saveBody_other_keys.
Qed.

Lemma run_timers_doc (fuel T : nat) (w : World) :
  doc (run_timers browser fuel T w) = doc w.
Proof.
  revert w. induction fuel as [|fuel IH]; intros w; [reflexivity |].
  simpl. destruct (pick (timers w)) as [[x rest]|]; [| reflexivity].
  destruct (due x <=? T)%nat; [| reflexivity].
  rewrite IH. unfold fire. destruct (action x); [| reflexivity].
  now rewrite doc_saveBody.
Qed.

Lemma step_other_keys (w : World) (e : Event) (k : string) :
  ~ ownKey k -> storage (step browser w e) !! k = storage w !! k.
Proof.
  intros Hk.
  assert (Hr : forall d, storage (render d w) = storage w)
    by (intros d; unfold render; now destruct (decide _)).
  destruct e; simpl; try (now rewrite Hr).
  - unfold flush. destruct (pendingSave _ _); [| reflexivity].
    now rewrite saveBody_other_keys.
  - now destruct thrown.
  - now apply run_timers_other_keys.
Qed.

(** Whatever the browser answers and whatever the user does, the entries of
    the store under keys other than the component's four stay as they
    were. *)
Theorem run_other_keys (es : list Event) (w : World) (k : string) :
  ~ ownKey k -> storage (run browser es w) !! k = storage w !! k.
Proof.
  intros Hk. revert w. induction es as [|e es IH]; intros w; [reflexivity |].
  unfold run in *. simpl. rewrite IH. now apply step_other_keys.
Qed.

(** A manual save, an export and the passing of time never change the
    document, whether the store accepts the writes or not. *)
Theorem doc_survives (w : World) :
  doc (handleSave browser w) = doc w
  /\ (forall thrown, doc (handleDownload thrown w) = doc w)
  /\ (forall T, doc (advance browser T w) = doc w).
Proof.
  split; [| split].
  - unfold handleSave. simpl. apply doc_flush.
  - now intros [msg|].
  - intros T. unfold advance. simpl. apply run_timers_doc.
Qed.

(** Writing the same document twice in a row, both times accepted, leaves
    the store as the first write left it. *)
Theorem saveBody_idempotent (d : Doc) (w : World) :
  (setItems browser (storage w) (entries d)).2 = None ->
  (setItems browser (storage (saveBody browser d w)) (entries d)).2 = None ->
  storage (saveBody browser d (saveBody browser d w)) = storage (saveBody browser d w).
Proof.
  intros H1 H2.
  assert (Hall : forall ls, (setItems browser ls (entries d)).2 = None ->
                           (setItems browser ls (entries d)).1 = putAll ls (entries d)).
  { intros ls H. destruct (setItems_prefix browser (entries d) ls) as (n & _ & Hst & Hn & _).
    rewrite Hst, (Hn H). now rewrite firstn_all. }
  rewrite (storage_saveBody browser d (saveBody browser d w)), (Hall _ H2).
  rewrite (storage_saveBody browser d w), (Hall _ H1).
  apply putAll_idempotent.
Qed.

(** A status timer that is still ahead when the clock stops stays last in
    the queue. *)
Lemma run_timers_keeps_last (T : nat) (c : Timer) :
  T < due c ->
  forall (fuel : nat) (q : list Timer) (w : World),
    timers w = q ++ [c] ->
    Forall (fun x => due x <= due c) q ->
    exists q', timers (run_timers browser fuel T w) = q' ++ [c]
               /\ Forall (fun x => due x <= due c) q'.
Proof.
  intros HT. induction fuel as [|fuel IH]; intros q w Hw Hall; [now exists q |].
  simpl. destruct q as [|x0 q0].
  - simpl in Hw. rewrite Hw. simpl.
    destruct (Nat.leb_spec (due c) T); [lia |]. exists []. now rewrite Hw.
  - destruct (pick_snoc_last c (x0 :: q0) ltac:(discriminate) Hall) as (y & r & Hq & Hqc).
    rewrite Hw, Hqc.
    destruct (due y <=? T)%nat; [| exists (x0 :: q0); now rewrite Hw].
    apply (IH r); [now rewrite timers_fire |].
    apply pick_perm in Hq. rewrite Hq in Hall. now apply Forall_cons in Hall as [_ Hall].
Qed.

(** The timer armed by a manual save is never cancelled: a failed export
    that happens while the save's message is still up has its own message
    removed when the save's two seconds are over. *)
Theorem save_timer_clears_export_failure (w : World) (t1 T : nat) (msg : string) :
  timers_bounded w ->
  t1 < now w + STATUS_DELAY ->
  now w + STATUS_DELAY <= T ->
  let w1 := handleDownload (Some msg) (advance browser t1 (handleSave browser w)) in
  errorMsg w1 = "Download failed: " +:+ msg
  /\ errorMsg (advance browser T w1) = "".
Proof.
  intros Hw Ht1 HT w1. split; [reflexivity |].
  set (c := mkTimer (now w + STATUS_DELAY) ClearStatus).
  assert (Hq : timers (handleSave browser w) = timers (flush browser w) ++ [c])
    by (unfold handleSave, c; simpl; now rewrite now_flush).
  destruct (run_timers_keeps_last t1 c Ht1
              (length (timers (handleSave browser w)))
              (timers (flush browser w)) (handleSave browser w) Hq
              (flush_bounded browser w Hw)) as (q' & Hq' & Hall').
  apply (advance_clears browser T c q'); [reflexivity | exact HT | exact Hq' | exact Hall'].
Qed.

End Frames.

Lemma run_other_keys_witness :
  storage (run (quota 149) [EditJs (jsCode bigScriptDoc); Elapse 1000; ClickSave]
               (mount {["theme" := "solarized"]})) !! "theme"
  = Some "solarized".
Proof.
  rewrite run_other_keys.
  - vm_compute. reflexivity.
  - unfold ownKey, KEY_HTML, KEY_CSS, KEY_JS, KEY_DARK.
    intros [H | [H | [H | H]]]; discriminate.
Defined.

Lemma saveBody_idempotent_witness :
  storage (saveBody storesAll bigScriptDoc (saveBody storesAll bigScriptDoc idle))
  = storage (saveBody storesAll bigScriptDoc idle).
Proof. apply saveBody_idempotent; reflexivity. Defined.

Lemma save_timer_clears_export_failure_witness :
  errorMsg (handleDownload (Some "disk full")
              (advance storesAll 2900 (handleSave storesAll idle)))
    = "Download failed: disk full"
  /\ errorMsg (advance storesAll 3000
                 (handleDownload (Some "disk full")
                    (advance storesAll 2900 (handleSave storesAll idle)))) = "".
Proof.
  apply (save_timer_clears_export_failure storesAll idle 2900 3000 "disk full").
  - unfold timers_bounded. vm_compute. constructor.
  - vm_compute. lia.
  - vm_compute. lia.
Defined.

(** ** The armed debounced functions *)

Lemma pendingSaves_app (a b : list Timer) :
  pendingSaves (a ++ b) = pendingSaves a ++ pendingSaves b.
Proof.
  induction a as [|x a IH]; [reflexivity |].
  simpl. destruct (action x); [now rewrite IH | exact IH].
Qed.

Lemma pendingSaves_due (P : nat -> Prop) (q : list Timer) :
  Forall (fun x => P (due x)) q -> Forall (fun s => P s.1.1) (pendingSaves q).
Proof.
  induction 1 as [|x q Hx _ IH]; simpl; [constructor |].
  destruct (action x); [now constructor | exact IH].
Qed.

(** [pick] takes one timer out and leaves the others in their order; the
    timers before it are due strictly later. *)
Lemma pick_split (q : list Timer) (y : Timer) (r : list Timer) :
  pick q = Some (y, r) ->
  exists a b, q = a ++ y :: b /\ r = a ++ b
              /\ Forall (fun x => due y < due x) a
              /\ Forall (fun x => due y <= due x) b.
Proof.
  revert y r. induction q as [|x q IH]; intros y r H; simpl in H; [discriminate |].
  destruct (pick q) as [[z s]|] eqn:Hq.
  - destruct (IH _ _ eq_refl) as (a & b & -> & -> & Ha & Hb).
    destruct (Nat.leb_spec (due x) (due z)); inversion H; subst.
    + exists [], (a ++ z :: b). repeat split; [constructor |].
      apply pick_min in Hq. eapply Forall_impl; [exact Hq |].
      intros t Ht. simpl in Ht. lia.
    + exists (x :: a), b. repeat split; [| exact Hb].
      constructor; [lia | exact Ha].
  - destruct q as [|x' q]; [| now apply pick_nonempty in Hq].
    inversion H; subst. exists [], []. repeat split; constructor.
Qed.

(** With the armed functions in order, the picked timer is either a status
    timer or the earliest armed function. *)
Lemma pick_pendingSaves (q : list Timer) (y : Timer) (r : list Timer) :
  StronglySorted save_before (pendingSaves q) ->
  pick q = Some (y, r) ->
  match action y with
  | InvokeSave i d => pendingSaves q = (due y, i, d) :: pendingSaves r
  | ClearStatus => pendingSaves r = pendingSaves q
  end.
Proof.
  intros Hs Hp. destruct (pick_split _ _ _ Hp) as (a & b & -> & -> & Ha & _).
  rewrite !pendingSaves_app in *. simpl in *.
  destruct (action y) as [i d|]; [| reflexivity].
  apply (pendingSaves_due (fun n => due y < n)) in Ha.
  destruct (pendingSaves a) as [|s pa]; [reflexivity |].
  exfalso. apply Forall_cons in Ha as [Hlt _].
  assert (Hb : save_before s (due y, i, d)).
  { eapply (StronglySorted_app_1_elem_of _ (s :: pa)); [exact Hs | left | left]. }
  destruct Hb as [Hle _]. simpl in *. lia.
Qed.

Lemma filter_all {A} (P : A -> Prop) `{forall x, Decision (P x)} (l : list A) :
  Forall P l -> filter P l = l.
Proof.
  induction 1 as [|x l Hx _ IH]; [reflexivity |].
  rewrite filter_cons_True by exact Hx. now rewrite IH.
Qed.

Lemma pendingSaves_disarm (id : nat) (q : list Timer) :
  pendingSaves (disarm id q) = filter (fun s => s.1.2 <> id) (pendingSaves q).
Proof.
  induction q as [|x q IH]; [reflexivity |].
  simpl. destruct (action x) as [i d|] eqn:Hx.
  - destruct (decide (i = id)) as [-> | Hne].
    + rewrite filter_cons_False by (simpl; tauto). exact IH.
    + rewrite filter_cons_True by (simpl; exact Hne).
      simpl. rewrite Hx. now rewrite IH.
  - simpl. now rewrite Hx.
Qed.

Lemma pendingSave_elem (id : nat) (q : list Timer) (d : Doc) :
  pendingSave id q = Some d -> exists t, (t, id, d) ∈ pendingSaves q.
Proof.
  induction q as [|x q IH]; simpl; [discriminate |].
  destruct (action x) as [i d'|]; [| exact IH].
  destruct (decide (i = id)) as [-> | _].
  - intros [= ->]. exists (due x). left.
  - intros H. destruct (IH H) as [t Ht]. exists t. now right.
Qed.

Lemma pendingSave_None (id : nat) (q : list Timer) :
  Forall (fun s => s.1.2 <> id) (pendingSaves q) -> pendingSave id q = None.
Proof.
  induction q as [|x q IH]; simpl; [reflexivity |].
  destruct (action x) as [i d|]; [| exact IH].
  intros H. apply Forall_cons in H as [Hne H]. simpl in Hne.
  destruct (decide (i = id)); [contradiction | now apply IH].
Qed.

Lemma pendingSave_snoc (id : nat) (q : list Timer) (t : nat) (d : Doc) :
  pendingSave id q = None ->
  pendingSave id (q ++ [mkTimer t (InvokeSave id d)]) = Some d.
Proof.
  induction q as [|x q IH]; simpl.
  - intros _. destruct (decide (id = id)); [reflexivity | contradiction].
  - destruct (action x) as [i d'|]; [| exact IH].
    destruct (decide (i = id)); [discriminate | exact IH].
Qed.

Lemma pendingSave_pendingSaves (id : nat) (q q' : list Timer) :
  pendingSaves q = pendingSaves q' -> pendingSave id q = pendingSave id q'.
Proof.
  assert (H : forall q, pendingSave id q
                        = (fun s => s.2) <$> head (filter (fun s => s.1.2 = id) (pendingSaves q))).
  { clear. induction q as [|x q IH]; [reflexivity |].
    simpl. destruct (action x) as [i d|]; [| exact IH].
    destruct (decide (i = id)) as [-> | Hne].
    - now rewrite filter_cons_True by reflexivity.
    - now rewrite filter_cons_False by (simpl; exact Hne). }
  intros Heq. now rewrite !H, Heq.
Qed.

(** In an ordered queue whose numbers do not exceed [cur], the armed
    function number [cur] is the last one. *)
Lemma current_is_last (cur t : nat) (d : Doc) (l : list (nat * nat * Doc)) :
  StronglySorted save_before l ->
  Forall (fun s => s.1.2 <= cur) l ->
  (t, cur, d) ∈ l ->
  exists l1, l = l1 ++ [(t, cur, d)] /\ Forall (fun s => s.1.2 < cur) l1.
Proof.
  intros Hs Hb Hin. apply list_elem_of_split in Hin as (l1 & l2 & ->).
  apply StronglySorted_app in Hs as (Hcross & _ & Hs2).
  apply StronglySorted_cons in Hs2 as [Hafter _].
  apply Forall_app in Hb as [_ Hb2]. apply Forall_cons in Hb2 as [_ Hb2].
  destruct l2 as [|s l2].
  - exists l1. split; [reflexivity |].
    apply Forall_forall. intros s Hs1.
    destruct (Hcross s (t, cur, d) Hs1) as [_ Hlt]; [left | exact Hlt].
  - exfalso. apply Forall_cons in Hafter as [[_ Hlt] _].
    apply Forall_cons in Hb2 as [Hle _]. simpl in *. lia.
Qed.

(** ** The queue invariant *)

Section Queue.

Variable browser : gmap string string -> string -> string -> option string.

Lemma currentId_saveBody (d : Doc) (w : World) :
  currentId (saveBody browser d w) = currentId w.
Proof.
  unfold saveBody. destruct (setItems _ _ _) as [ls [msg|]]; reflexivity.
Qed.

Lemma writeLog_saveBody (d : Doc) (w : World) :
  writeLog (saveBody browser d w) = writeLog w ++ [(now w, d)].
Proof.
  unfold saveBody. destruct (setItems _ _ _) as [ls [msg|]]; reflexivity.
Qed.

(** The invariant looks at the armed functions, the clock, the memoised
    number, the document and the number of writes only. *)
Lemma queue_ok_ext (w w' : World) :
  pendingSaves (timers w') = pendingSaves (timers w) ->
  now w <= now w' ->
  currentId w' = currentId w ->
  doc w' = doc w ->
  length (writeLog w') = length (writeLog w) ->
  queue_ok w -> queue_ok w'.
Proof.
  intros Hq Hn Hc Hd Hl (Hs & Hb & Hcl & Hcnt).
  unfold queue_ok. rewrite Hq, Hc, Hd, Hl.
  split; [exact Hs | split; [| split; [exact Hcl | exact Hcnt]]].
  eapply Forall_impl; [exact Hb |]. intros s Hs'. simpl in *. lia.
Qed.

(** One armed function leaves the queue and its write is logged. *)
Lemma queue_ok_remove (w w' : World) (l1 l2 : list (nat * nat * Doc)) (s : nat * nat * Doc) :
  pendingSaves (timers w) = l1 ++ s :: l2 ->
  pendingSaves (timers w') = l1 ++ l2 ->
  now w <= now w' ->
  currentId w' = currentId w ->
  doc w' = doc w ->
  length (writeLog w') = S (length (writeLog w)) ->
  queue_ok w -> queue_ok w'.
Proof.
  intros Hq Hq' Hn Hc Hd Hl (Hs & Hb & Hcl & Hcnt).
  unfold queue_ok. rewrite Hq', Hc, Hd, Hl. rewrite Hq in *.
  split; [| split; [| split]].
  - apply StronglySorted_app in Hs as (Hcross & Hs1 & Hs2).
    apply StronglySorted_cons in Hs2 as [_ Hs2].
    apply StronglySorted_app. split; [| split; [exact Hs1 | exact Hs2]].
    intros x1 x2 H1 H2. apply Hcross; [exact H1 | now right].
  - apply Forall_app in Hb as [Hb1 Hb2]. apply Forall_cons in Hb2 as [_ Hb2].
    apply Forall_app. split; (eapply Forall_impl; [eassumption |]);
      intros x Hx; simpl in *; lia.
  - intros t d Hin. apply (Hcl t). apply elem_of_app in Hin as [Hin | Hin].
    + apply elem_of_app. now left.
    + apply elem_of_app. right. now right.
  - rewrite length_app in *. simpl in *. lia.
Qed.

Lemma queue_ok_firstRender (ls : gmap string string) : queue_ok (firstRender ls).
Proof.
  unfold queue_ok, firstRender. simpl. split; [| split; [| split]].
  - repeat constructor.
  - repeat constructor.
  - intros t d Hin. apply list_elem_of_singleton in Hin. congruence.
  - reflexivity.
Qed.

Lemma queue_ok_render (d : Doc) (w : World) : queue_ok w -> queue_ok (render d w).
Proof.
  intros (Hs & Hb & Hcl & Hcnt). unfold render.
  destruct (decide _) as [_ | Hne]; [now repeat split |].
  unfold queue_ok. simpl. rewrite pendingSaves_app. simpl.
  split; [| split; [| split]].
  - apply StronglySorted_app. split; [| split; [exact Hs | repeat constructor]].
    intros x1 x2 H1 H2. apply list_elem_of_singleton in H2 as ->.
    rewrite Forall_forall in Hb. destruct (Hb x1 H1) as [Hdue Hid].
    split; simpl; lia.
  - apply Forall_app. split.
    + eapply Forall_impl; [exact Hb |]. intros s Hs'. simpl in *. lia.
    + repeat constructor; simpl; lia.
  - intros t d' Hin. apply elem_of_app in Hin as [Hin | Hin].
    + rewrite Forall_forall in Hb. destruct (Hb _ Hin) as [_ Hid]. simpl in Hid. lia.
    + apply list_elem_of_singleton in Hin. congruence.
  - rewrite length_app. simpl. lia.
Qed.

(** After a re-render that changed the document, the fresh debounced
    function is armed with the new document. *)
Lemma render_pending (d : Doc) (w : World) :
  queue_ok w -> d <> doc w ->
  pendingSave (currentId (render d w)) (timers (render d w)) = Some d
  /\ doc (render d w) = d.
Proof.
  intros (_ & Hb & _) Hne. unfold render.
  destruct (decide _) as [Heq | _]; [contradiction |]. simpl.
  split; [| reflexivity]. apply pendingSave_snoc, pendingSave_None.
  eapply Forall_impl; [exact Hb |]. intros s Hs. simpl in *. lia.
Qed.

Lemma now_render (d : Doc) (w : World) : now (render d w) = now w.
Proof. unfold render. now destruct (decide _). Qed.

Lemma queue_ok_flush (w : World) : queue_ok w -> queue_ok (flush browser w).
Proof.
  intros Hw. unfold flush.
  destruct (pendingSave _ _) as [d|] eqn:Hp; [| exact Hw].
  pose proof Hw as (Hs & Hb & _).
  destruct (pendingSave_elem _ _ _ Hp) as [t Hin].
  destruct (current_is_last (currentId w) t d (pendingSaves (timers w)) Hs) as (l1 & Hl & Hlt);
    [| exact Hin |].
  { eapply Forall_impl; [exact Hb |]. intros s Hs'. simpl in *. lia. }
  eapply (queue_ok_remove w _ l1 [] (t, currentId w, d)); try exact Hw.
  - exact Hl.
  - rewrite timers_saveBody. simpl. rewrite pendingSaves_disarm, Hl, filter_app.
    rewrite filter_cons_False by (simpl; tauto). rewrite filter_nil.
    rewrite filter_all; [reflexivity |].
    eapply Forall_impl; [exact Hlt |]. intros s Hs'. simpl in *. lia.
  - now rewrite now_saveBody.
  - now rewrite currentId_saveBody.
  - now rewrite doc_saveBody.
  - rewrite writeLog_saveBody, length_app. simpl. lia.
Qed.

Lemma queue_ok_fire (w : World) (y : Timer) (rest : list Timer) :
  queue_ok w ->
  pick (timers w) = Some (y, rest) ->
  queue_ok (fire browser y (withNow (Nat.max (now w) (due y)) (withTimers rest w))).
Proof.
  intros Hw Hp. pose proof Hw as (Hs & _).
  pose proof (pick_pendingSaves _ _ _ Hs Hp) as Hy.
  unfold fire. destruct (action y) as [i d|].
  - eapply (queue_ok_remove w _ [] (pendingSaves rest) (due y, i, d)); try exact Hw.
    + exact Hy.
    + now rewrite timers_saveBody.
    + rewrite now_saveBody. simpl. lia.
    + now rewrite currentId_saveBody.
    + now rewrite doc_saveBody.
    + rewrite writeLog_saveBody, length_app. simpl. lia.
  - apply (queue_ok_ext w); try reflexivity; try exact Hw.
    + exact Hy.
    + simpl. lia.
Qed.

Lemma queue_ok_run_timers (fuel T : nat) (w : World) :
  queue_ok w -> queue_ok (run_timers browser fuel T w).
Proof.
  revert w. induction fuel as [|fuel IH]; intros w Hw; [exact Hw |].
  simpl. destruct (pick (timers w)) as [[y rest]|] eqn:Hp; [| exact Hw].
  destruct (due y <=? T)%nat; [| exact Hw].
  apply IH. now apply queue_ok_fire.
Qed.

Lemma queue_ok_step (w : World) (e : Event) :
  queue_ok w -> queue_ok (step browser w e).
Proof.
  intros Hw. destruct e; simpl; try now apply queue_ok_render.
  - apply (queue_ok_ext (flush browser w)); try reflexivity; [| now apply queue_ok_flush].
    simpl. rewrite pendingSaves_app. simpl. now rewrite app_nil_r.
  - destruct thrown as [msg|]; [exact Hw |].
    apply (queue_ok_ext w); try reflexivity; [| exact Hw].
    simpl. rewrite pendingSaves_app. simpl. now rewrite app_nil_r.
  - apply (queue_ok_ext (run_timers browser (length (timers w)) (now w + ms) w));
      try reflexivity; [simpl; lia | now apply queue_ok_run_timers].
Qed.

Lemma reachable_queue_ok (w : World) : reachable browser w -> queue_ok w.
Proof.
  induction 1 as [ls | w e _ IH].
  - apply queue_ok_render, queue_ok_firstRender.
  - now apply queue_ok_step.
Qed.

Lemma reachable_run (es : list Event) (w : World) :
  reachable browser w -> reachable browser (run browser es w).
Proof.
  revert w. induction es as [|e es IH]; intros w Hw; [exact Hw |].
  unfold run in *. simpl. apply IH. now constructor.
Qed.

(** In every reachable state, each debounced function created so far has
    either run its callback once or is still armed: the writes done and
    the writes pending add up to the number of debounced functions, one per
    change of the document and one for the first render.  No write is
    merged with a later one. *)
Theorem writes_accounted (w : World) :
  reachable browser w ->
  length (writeLog w) + length (pendingSaves (timers w)) = S (currentId w).
Proof. intros Hw. now destruct (reachable_queue_ok w Hw) as (_ & _ & _ & H). Qed.

(** In a reachable state where the write of the current debounced function
    is pending, that function closed over the current document, and a
    manual save that the store accepts leaves the store spelling the
    document and the function disarmed. *)
Theorem manual_save_stores_document (w : World) (d : Doc) :
  reachable browser w ->
  pendingSave (currentId w) (timers w) = Some d ->
  (setItems browser (storage w) (entries d)).2 = None ->
  d = doc w
  /\ persisted (storage (handleSave browser w)) (doc w)
  /\ pendingSave (currentId w) (timers (handleSave browser w)) = None.
Proof.
  intros Hw Hp Hok.
  destruct (reachable_queue_ok w Hw) as (_ & _ & Hcl & _).
  destruct (pendingSave_elem _ _ _ Hp) as [t Hin].
  pose proof (Hcl t d Hin) as Hd.
  destruct (handleSave_pending_accepted browser w d Hp Hok) as [Hper Hnone].
  split; [exact Hd | split; [now rewrite <- Hd |]].
  rewrite <- Hnone. apply pendingSave_pendingSaves.
  unfold handleSave. simpl. rewrite pendingSaves_app. simpl. now rewrite app_nil_r.
Qed.

End Queue.

Lemma idle_reachable : reachable storesAll idle.
Proof. exact (reachable_step storesAll _ (Elapse 1000) (reachable_mount storesAll ∅)). Qed.

Lemma bigScriptTyped_reachable : reachable storesAll bigScriptTyped.
Proof.
  change (reachable storesAll (step storesAll idle (EditJs (jsCode bigScriptDoc)))).
  apply reachable_step, idle_reachable.
Qed.

Lemma writes_accounted_witness :
  length (writeLog bigScriptTyped) + length (pendingSaves (timers bigScriptTyped))
  = S (currentId bigScriptTyped).
Proof. apply (writes_accounted storesAll). exact bigScriptTyped_reachable. Defined.

Lemma manual_save_stores_document_witness :
  persisted (storage (handleSave storesAll bigScriptTyped)) (doc bigScriptTyped)
  /\ pendingSave (currentId bigScriptTyped)
                 (timers (handleSave storesAll bigScriptTyped)) = None.
Proof.
  destruct (manual_save_stores_document storesAll bigScriptTyped (doc bigScriptTyped))
    as (_ & Hp & Hn).
  - exact bigScriptTyped_reachable.
  - vm_compute. reflexivity.
  - reflexivity.
  - split; [exact Hp | exact Hn].
Defined.

(** ** Automatic saving on a store that accepts every write *)

Lemma saveBody_storesAll (d : Doc) (w : World) :
  storage (saveBody storesAll d w) = putAll (storage w) (entries d)
  /\ codeChanged (saveBody storesAll d w) = false.
Proof. split; reflexivity. Qed.

(** With no debounced function armed, time leaves the store and the dirty
    flag alone. *)
Lemma run_timers_no_saves
    (browser : gmap string string -> string -> string -> option string)
    (fuel T : nat) (w : World) :
  pendingSaves (timers w) = [] ->
  storage (run_timers browser fuel T w) = storage w
  /\ codeChanged (run_timers browser fuel T w) = codeChanged w.
Proof.
  revert w. induction fuel as [|fuel IH]; intros w Hq; [now split |].
  simpl. destruct (pick (timers w)) as [[y rest]|] eqn:Hp; [| now split].
  destruct (due y <=? T)%nat; [| now split].
  assert (Hs : StronglySorted save_before (pendingSaves (timers w)))
    by (rewrite Hq; constructor).
  pose proof (pick_pendingSaves _ _ _ Hs Hp) as Hy.
  unfold fire. destruct (action y) as [i d|]; [congruence |].
  destruct (IH (withStatus "" (withNow (Nat.max (now w) (due y)) (withTimers rest w))))
    as [H1 H2]; [simpl; congruence |].
  rewrite H1, H2. now split.
Qed.

(** Once every armed function is due, the store ends up spelling the
    document of the one created last. *)
Lemma run_timers_last_write (T fuel : nat) (w : World) (s : nat * nat * Doc) :
  length (timers w) <= fuel ->
  StronglySorted save_before (pendingSaves (timers w)) ->
  Forall (fun x => x.1.1 <= T) (pendingSaves (timers w)) ->
  last (pendingSaves (timers w)) = Some s ->
  persisted (storage (run_timers storesAll fuel T w)) s.2
  /\ codeChanged (run_timers storesAll fuel T w) = false.
Proof.
  revert w. induction fuel as [|fuel IH]; intros w Hlen Hs Hd Hlast.
  - destruct (timers w); [discriminate | simpl in Hlen; lia].
  - simpl. destruct (pick (timers w)) as [[y rest]|] eqn:Hp.
    + pose proof (pick_pendingSaves _ _ _ Hs Hp) as Hy.
      pose proof (pick_perm _ _ _ Hp) as Hperm.
      apply Permutation_length in Hperm. simpl in Hperm.
      destruct (Nat.leb_spec (due y) T) as [Hdue | Hdue].
      * unfold fire. destruct (action y) as [i d|].
        -- rewrite Hy in Hs, Hd, Hlast.
           apply StronglySorted_cons in Hs as [_ Hs].
           apply Forall_cons in Hd as [_ Hd].
           destruct (pendingSaves rest) as [|s' l] eqn:Hrest.
           ++ injection Hlast as <-.
              destruct (run_timers_no_saves storesAll fuel T
                          (saveBody storesAll d
                             (withNow (Nat.max (now w) (due y)) (withTimers rest w))))
                as [Hst Hcc].
              { now rewrite timers_saveBody. }
              rewrite Hst, Hcc. split; [apply persisted_putAll | reflexivity].
           ++ apply IH.
              ** rewrite timers_saveBody. simpl. lia.
              ** rewrite timers_saveBody. simpl. now rewrite Hrest.
              ** rewrite timers_saveBody. simpl. now rewrite Hrest.
              ** rewrite timers_saveBody. simpl. now rewrite Hrest.
        -- apply IH; simpl; rewrite ?Hy; (lia || assumption).
      * exfalso. apply pick_min in Hp.
        apply (pendingSaves_due (fun n => due y <= n)) in Hp.
        destruct (pendingSaves (timers w)) as [|s0 l]; [discriminate |].
        apply Forall_cons in Hp as [H1 _]. apply Forall_cons in Hd as [H2 _]. lia.
    + destruct (timers w) as [|x q]; [discriminate | now apply pick_nonempty in Hp].
Qed.

Lemma queue_ok_pending_write_lands (w : World) (d : Doc) (T : nat) :
  queue_ok w ->
  pendingSave (currentId w) (timers w) = Some d ->
  now w + DEBOUNCE_WAIT <= T ->
  persisted (storage (advance storesAll T w)) (doc w)
  /\ codeChanged (advance storesAll T w) = false
  /\ doc (advance storesAll T w) = doc w.
Proof.
  intros (Hs & Hb & Hcl & _) Hp HT.
  destruct (pendingSave_elem _ _ _ Hp) as [t Hin].
  rewrite <- (Hcl t d Hin).
  destruct (current_is_last (currentId w) t d (pendingSaves (timers w)) Hs) as (l1 & Hl & _);
    [| exact Hin |].
  { eapply Forall_impl; [exact Hb |]. intros s Hs'. simpl in *. lia. }
  destruct (run_timers_last_write T (length (timers w)) w (t, currentId w, d))
    as [Hper Hcc]; [lia | exact Hs | | now rewrite Hl, last_snoc |].
  { eapply Forall_impl; [exact Hb |]. intros s Hs'. simpl in *. lia. }
  split; [exact Hper | split; [exact Hcc |]].
  unfold advance. simpl. now rewrite run_timers_doc, (Hcl t d Hin).
Qed.

(** Eventual consistency: in a reachable state where the write of the
    current debounced function is pending, once the debounce wait has
    passed without input the store spells out the document and the dirty
    flag is off. *)
Theorem pending_write_lands (w : World) (d : Doc) (T : nat) :
  reachable storesAll w ->
  pendingSave (currentId w) (timers w) = Some d ->
  now w + DEBOUNCE_WAIT <= T ->
  persisted (storage (advance storesAll T w)) (doc w)
  /\ codeChanged (advance storesAll T w) = false
  /\ doc (advance storesAll T w) = doc w.
Proof.
  intros Hw. apply queue_ok_pending_write_lands. now apply (reachable_queue_ok storesAll).
Qed.

Lemma pending_write_lands_witness :
  persisted (storage (advance storesAll 2000 bigScriptTyped)) (doc bigScriptTyped)
  /\ codeChanged (advance storesAll 2000 bigScriptTyped) = false.
Proof.
  destruct (pending_write_lands bigScriptTyped (doc bigScriptTyped) 2000) as (Hp & Hc & _).
  - exact bigScriptTyped_reachable.
  - vm_compute. reflexivity.
  - vm_compute. lia.
  - split; [exact Hp | exact Hc].
Defined.

(** Any event that changes the document, an edit of a buffer or the theme
    switch, is followed within the debounce wait by a store that spells out
    the new document, when the user does nothing else meanwhile. *)
Theorem change_then_wait_persists (w : World) (e : Event) (ms : nat) :
  reachable storesAll w ->
  doc (step storesAll w e) <> doc w ->
  DEBOUNCE_WAIT <= ms ->
  persisted (storage (run storesAll [e; Elapse ms] w)) (doc (step storesAll w e)).
Proof.
  intros Hw Hne Hms.
  assert (Hw1 : reachable storesAll (step storesAll w e)) by now constructor.
  assert (Hp : pendingSave (currentId (step storesAll w e)) (timers (step storesAll w e))
               = Some (doc (step storesAll w e))).
  { pose proof (reachable_queue_ok storesAll w Hw) as Hq.
    assert (Hsave : doc (handleSave storesAll w) = doc w)
      by (unfold handleSave; simpl; apply doc_flush).
    assert (Hexp : forall thrown, doc (handleDownload thrown w) = doc w)
      by (now intros [m|]).
    assert (Hadv : forall T, doc (advance storesAll T w) = doc w)
      by (intros T; unfold advance; simpl; apply run_timers_doc).
    assert (Hr : forall d, doc (render d w) <> doc w ->
                           pendingSave (currentId (render d w)) (timers (render d w))
                           = Some (doc (render d w))).
    { intros d Hd. destruct (decide (d = doc w)) as [Heq | Hneq].
      - exfalso. apply Hd. unfold render. now destruct (decide _).
      - destruct (render_pending d w Hq Hneq) as [H1 H2]. now rewrite H2. }
    destruct e; simpl in *; try (now apply Hr); congruence. }
  destruct (queue_ok_pending_write_lands _ _ (now (step storesAll w e) + ms)
              (reachable_queue_ok storesAll _ Hw1) Hp) as (H & _ & _);
    [lia | exact H].
Qed.

Lemma change_then_wait_persists_witness :
  persisted (storage (run storesAll [ToggleDark; Elapse 1000] idle))
            (setDarkMode false defaultDoc).
Proof.
  apply (change_then_wait_persists idle ToggleDark 1000).
  - exact idle_reachable.
  - vm_compute. discriminate.
  - vm_compute. lia.
Defined.

(** Opening the editor rewrites the store: one debounce wait after
    mounting, the store spells out the loaded document, defaults included
    for the entries that were missing or empty, and opening the editor again
    on that store loads the same document. *)
Theorem mount_then_wait_persists (ls : gmap string string) (T : nat) :
  DEBOUNCE_WAIT <= T ->
  persisted (storage (advance storesAll T (mount ls))) (loadSaved ls defaultDoc)
  /\ doc (mount (storage (advance storesAll T (mount ls)))) = doc (mount ls).
Proof.
  intros HT.
  assert (Hp : pendingSave (currentId (mount ls)) (timers (mount ls)) = Some (doc (mount ls))).
  { unfold mount. destruct (decide (loadSaved ls defaultDoc = doc (firstRender ls))) as [Heq | Hne].
    - unfold render. destruct (decide _); [reflexivity | contradiction].
    - destruct (render_pending _ _ (queue_ok_firstRender ls) Hne) as [H1 H2].
      now rewrite H2. }
  destruct (queue_ok_pending_write_lands (mount ls) _ T
              (reachable_queue_ok storesAll _ (reachable_mount storesAll ls)) Hp) as (H & _ & _).
  { unfold mount. rewrite now_render. simpl. lia. }
  rewrite doc_mount in H. split; [exact H |].
  rewrite !doc_mount.
  destruct (loadSaved_default_nonempty ls) as (Nh & Nc & Nj).
  now apply loadSaved_persisted.
Qed.

Lemma mount_then_wait_persists_witness :
  persisted (storage (advance storesAll 1000 (mount {[KEY_HTML := ""]}))) defaultDoc.
Proof.
  destruct (mount_then_wait_persists {[KEY_HTML := ""]} 1000) as [H _].
  - vm_compute. lia.
  - exact H.
Defined.

(** The dirty flag on an accepting store: while the Save button shows its
    star, the write of the current document is pending, so a click on Save
    stores the document at once. *)
Lemma run_timers_dirty (fuel T : nat) (w : World) :
  queue_ok w ->
  (codeChanged w = true -> pendingSave (currentId w) (timers w) = Some (doc w)) ->
  codeChanged (run_timers storesAll fuel T w) = true ->
  pendingSave (currentId w) (timers (run_timers storesAll fuel T w)) = Some (doc w).
Proof.
  revert w. induction fuel as [|fuel IH]; intros w Hq HD; [exact HD |].
  simpl. destruct (pick (timers w)) as [[y rest]|] eqn:Hp; [| exact HD].
  destruct (due y <=? T)%nat; [| exact HD].
  pose proof (queue_ok_fire storesAll w y rest Hq Hp) as Hq1.
  pose proof Hq as (Hs & _).
  pose proof (pick_pendingSaves _ _ _ Hs Hp) as Hy.
  revert Hq1. unfold fire. destruct (action y) as [i d|]; intros Hq1 Hc.
  - specialize (IH _ Hq1). simpl in IH. apply IH; [discriminate | exact Hc].
  - specialize (IH _ Hq1). simpl in IH. apply IH; [| exact Hc].
    intros Hc'. rewrite <- (HD Hc'). now apply pendingSave_pendingSaves.
Qed.

Theorem dirty_means_pending (w : World) :
  reachable storesAll w ->
  codeChanged w = true ->
  pendingSave (currentId w) (timers w) = Some (doc w)
  /\ persisted (storage (handleSave storesAll w)) (doc w).
Proof.
  intros Hw Hc.
  assert (Hp : pendingSave (currentId w) (timers w) = Some (doc w)).
  { revert Hc. induction Hw as [ls | w e Hw IH].
    - intros _. unfold mount.
      destruct (decide (loadSaved ls defaultDoc = doc (firstRender ls))) as [Heq | Hne].
      + unfold render. destruct (decide _); [reflexivity | contradiction].
      + destruct (render_pending _ _ (queue_ok_firstRender ls) Hne) as [H1 H2].
        now rewrite H2.
    - pose proof (reachable_queue_ok storesAll w Hw) as Hq.
      assert (Hr : forall d, codeChanged (render d w) = true ->
                             pendingSave (currentId (render d w)) (timers (render d w))
                             = Some (doc (render d w))).
      { intros d Hd. destruct (decide (d = doc w)) as [Heq | Hneq].
        - unfold render in *. destruct (decide _); [now apply IH | contradiction].
        - destruct (render_pending d w Hq Hneq) as [H1 H2]. now rewrite H2. }
      destruct e; simpl; try (now apply Hr).
      + intros Hc. exfalso. unfold handleSave, flush in Hc. simpl in Hc.
        destruct (pendingSave (currentId w) (timers w)) as [d|] eqn:Hp; [discriminate |].
        specialize (IH Hc). congruence.
      + destruct thrown as [msg|]; [exact IH |].
        intros Hc. simpl in *. rewrite <- (IH Hc).
        apply pendingSave_pendingSaves. rewrite pendingSaves_app.
        simpl. now rewrite app_nil_r.
      + intros Hc. unfold advance in *. simpl in *.
        rewrite run_timers_doc.
        assert (Hid : forall fuel T w0, currentId (run_timers storesAll fuel T w0) = currentId w0).
        { clear. induction fuel as [|fuel IHf]; intros T w0; [reflexivity |].
          simpl. destruct (pick (timers w0)) as [[y rest]|]; [| reflexivity].
          destruct (due y <=? T)%nat; [| reflexivity].
          rewrite IHf. unfold fire. destruct (action y); reflexivity. }
        rewrite Hid. now apply run_timers_dirty. }
  split; [exact Hp |].
  now destruct (handleSave_pending_accepted storesAll w (doc w) Hp eq_refl) as [H _].
Qed.

Lemma dirty_means_pending_witness :
  pendingSave (currentId bigScriptTyped) (timers bigScriptTyped) = Some (doc bigScriptTyped)
  /\ persisted (storage (handleSave storesAll bigScriptTyped)) (doc bigScriptTyped).
Proof.
  apply dirty_means_pending; [exact bigScriptTyped_reachable | reflexivity].
Defined.

(** ** Quiescence *)

Lemma run_timers_Forall
    (browser : gmap string string -> string -> string -> option string)
    (P : Timer -> Prop) (fuel T : nat) (w : World) :
  Forall P (timers w) -> Forall P (timers (run_timers browser fuel T w)).
Proof.
  revert w. induction fuel as [|fuel IH]; intros w Hw; [exact Hw |].
  simpl. destruct (pick (timers w)) as [[y rest]|] eqn:Hp; [| exact Hw].
  destruct (due y <=? T)%nat; [| exact Hw].
  apply IH. rewrite timers_fire. simpl.
  apply pick_perm in Hp. rewrite Hp in Hw. now apply Forall_cons in Hw as [_ Hw].
Qed.

(** Two seconds after the last input nothing is pending any more: every
    timer of a reachable state has fired, whatever the browser answered to
    the writes. *)
Theorem quiescent_after_delay
    (browser : gmap string string -> string -> string -> option string)
    (w : World) (T : nat) :
  reachable browser w ->
  now w + STATUS_DELAY <= T ->
  timers (advance browser T w) = [].
Proof.
  intros Hw HT. pose proof (reachable_bounded browser w Hw) as Hb.
  pose proof (advance_complete browser T w) as Hc.
  unfold advance in *. simpl in *.
  apply (run_timers_Forall browser _ (length (timers w)) T) in Hb.
  destruct (timers (run_timers browser (length (timers w)) T w)) as [|x q]; [reflexivity |].
  apply Forall_cons in Hb as [Hb _]. apply Forall_cons in Hc as [Hc _]. lia.
Qed.

Lemma quiescent_after_delay_witness :
  timers (advance (quota 149) 3000 (handleSave (quota 149) bigScriptTyped)) = [].
Proof.
  apply quiescent_after_delay.
  - change (reachable (quota 149) (step (quota 149) bigScriptTyped ClickSave)).
    apply reachable_step.
    change (reachable (quota 149) (step (quota 149) idle (EditJs (jsCode bigScriptDoc)))).
    apply reachable_step.
    change (reachable (quota 149) (step (quota 149) (mount ∅) (Elapse 1000))).
    apply reachable_step, reachable_mount.
  - vm_compute. lia.
Defined.

Lemma run_timers_status_stays_empty (fuel T : nat) (w : World) :
  errorMsg w = "" -> errorMsg (run_timers storesAll fuel T w) = "".
Proof.
  revert w. induction fuel as [|fuel IH]; intros w Hw; [exact Hw |].
  simpl. destruct (pick (timers w)) as [[y rest]|]; [| exact Hw].
  destruct (due y <=? T)%nat; [| exact Hw].
  apply IH. unfold fire. destruct (action y); reflexivity.
Qed.

(** On a store that accepts every write, two quiet seconds with at least
    one timer pending at their start leave the status bar empty, whichever
    message was on display. *)
Theorem quiet_store_clears_status (w : World) (T : nat) :
  reachable storesAll w ->
  timers w <> [] ->
  now w + STATUS_DELAY <= T ->
  errorMsg (advance storesAll T w) = ""
  /\ statusBarClass (errorMsg (advance storesAll T w)) = None.
Proof.
  intros Hw Hne HT.
  assert (H : errorMsg (advance storesAll T w) = ""); [| now rewrite H].
  pose proof (reachable_bounded storesAll w Hw) as Hb.
  rewrite errorMsg_advance.
  destruct (timers w) as [|x q] eqn:Hq; [congruence |].
  change (length (x :: q)) with (S (length q)).
  change (run_timers storesAll (S (length q)) T w) with
    (match pick (timers w) with
     | Some (y, rest) =>
         if (due y <=? T)%nat
         then run_timers storesAll (length q) T
                (fire storesAll y (withNow (Nat.max (now w) (due y)) (withTimers rest w)))
         else w
     | None => w
     end).
  destruct (pick (timers w)) as [[y rest]|] eqn:Hp;
    [| rewrite Hq in Hp; now apply pick_nonempty in Hp].
  assert (Hy : due y <= T).
  { pose proof (pick_perm _ _ _ Hp) as Hperm. unfold timers_bounded in Hb.
    rewrite Hperm in Hb. apply Forall_cons in Hb as [Hb _]. lia. }
  destruct (Nat.leb_spec (due y) T); [| lia].
  apply run_timers_status_stays_empty. unfold fire. destruct (action y); reflexivity.
Qed.

Lemma quiet_store_clears_status_witness :
  errorMsg (advance storesAll 3000
              (handleDownload (Some "disk full") bigScriptTyped)) = "".
Proof.
  apply (quiet_store_clears_status (handleDownload (Some "disk full") bigScriptTyped) 3000).
  - change (reachable storesAll
              (step storesAll bigScriptTyped (ClickExport (Some "disk full")))).
    apply reachable_step, bigScriptTyped_reachable.
  - vm_compute. discriminate.
  - vm_compute. lia.
Defined.
